(* ===== verification/_CoqProject ===== *)
-Q . S2P
Prelude.v
JsRuntime.v
Store.v
Calendar.v
CalendarProofs.v
CalendarLoad.v
CalendarTime.v
Examples.v
CalendarFailure.v
CalendarInterleave.v
CalendarRefinement.v
Contacts.v
ContactsGrid.v
ContactsProofs.v
ContactsSession.v
