(* ===== verification/Prelude.v ===== *)
(** * RippleDEX: a verification development of the calendar and contacts controllers

    The repository is the browser side of a small CRM written in JavaScript
    (React).  Two controllers under [src/] hold all of its logic:

    - [src/src/components/calendar/calendarComponent.js], the calendar
      reconciliation controller: it keeps the event list of a FullCalendar
      widget in step with the "interaction" documents of a remote store.
      It loads the documents on mount ([clearEvents], [loadEvents],
      [addEvent]) together with the contacts, deals and tasks the popups
      offer for autocomplete ([fetchContacts], [fetchDeals],
      [fetchTasks]), creates one from a date click and a form
      ([handleDateSelected], [createNewEventDate], with the "HH:MM" time
      parsing), soft-deletes one ([deleteEvent] in [renderEventContent]:
      [remindMe := false]), moves one by drag ([updateEvent]) and refreshes
      one after the edit popup ([handleEdit], [afterUpdate]).
    - [src/src/pages/contacts.js], the contacts table controller: it loads
      the contacts of the organisation into React state and adds or deletes
      rows after a simulated delay ([onRowAdd], [onRowDelete]).

    Both talk to a remote document store ([models/Interaction],
    [models/Contact], which are not among the sources); the store is
    modelled from the spec's store contracts as an interface with laws.

    ** Files (in dependency order)
    - [Prelude] (this file): the [rdex_scope] notation [x ?? d] for
      JavaScript's default arguments, the [rdex] hint databases, the [invc]
      tactic and the generic lemmas on [List.filter], [omap] and
      permutations (Section [ListFacts]) the components share.
    - [JsRuntime]: the JavaScript built-ins the handlers call, with their
      ECMAScript semantics: truthiness (class [Truthy]), [parseInt]
      (leading white space, sign, [0x] prefix, digits), [split] on one
      character, array indexing that yields [undefined] out of range
      ([num_at]), [splice(index, 1)] ([splice1]) and Date time values
      ([TimeClip], [MakeTime], [MakeDate], [new_Date], [setHours]); and
      their lemmas: [parseInt] of a printed number, [split] of a string
      with one colon, [setHours] on and past the day.
    - [Store]: the documents ([Interaction.t], [NewInteraction.t],
      [Contact.t], [Deal.t], [Task.t], the partial update [Patch.t]) and
      the interaction store as an interface: the class [InteractionStore]
      of the eight calls the calendar makes and the class [InteractionStoreLaws] of what the
      controller relies on, discharged by the finite-map store [FireStore].
    - [Calendar]: calendarComponent.js as explicit state passing.  Section
      [Controller] holds a [World] (the store, the widget's event list in
      insertion order, the continuations waiting on a remote call, the
      notifications, the errors raised, the React state [Ui]), one
      definition per handler ([addEvent], [loadEvents], [clearEvents],
      [mount], [handleDateSelected], [createNewEventDate], [deleteEvent],
      [updateEvent], [dragEvent], [handleEdit], [afterUpdate],
      [editSubmit], dispatched by [handle] on a [Gesture]), the runner
      [run_job] of the code after each [await] or [.then], the relations
      [step] (a gesture or any pending completion) and [job_step] (any
      pending completion), the in-order runner [settle], and the
      [projection] the spec requires the widget to show, with the
      invariant [consistent].
    - [CalendarProofs]: the projection as a function of the store
      ([remdocs], [proj]), how store writes move it, and the theorems on
      each handler (create, delete, drag, edit).
    - [CalendarLoad]: the initial load.  Section [Load] proves the
      invariant [load_inv] along every interleaving of [job_step];
      Section [Autocomplete] the invariant [fetch_inv] (each fetch is
      pending or has filled its list).
    - [CalendarTime]: the "HH:MM" parsing of [createNewEventDate] and the
      instants it produces; the create handler on well-formed and on
      malformed times.
    - [Examples]: a concrete store (two reminded interactions and a
      dismissed one), the session loaded from it, and the witnesses that
      apply each calendar theorem to it; and the counterexample that the
      load does not fix the order of the events.
    - [CalendarFailure]: remote calls that reject.  [reject_job] drops
      the continuation of a rejected call and reports an unhandled
      rejection (no [await] or [.then] has a [catch]); [fail_step] lets
      any pending call resolve or reject; [lossy_inv] is the load
      invariant with losses (shown plus pending is a submultiset of the
      projection), proved from the two lemmas that also give [load_inv]
      ([job_step_loading], [job_step_adds]).
    - [CalendarInterleave]: deletes and drags interleaved with their
      updates completing in any order.  Section [Interleave] defines the
      store the pending updates will produce ([apply_pending]), the
      invariant [edit_inv] and the relation [edit_step], and proves the
      invariant along every run, using the store law that updates of two
      documents commute; the concrete session runs one such interleaving
      and the two runs that break its side conditions: the race of two
      drags of one event, and an all-day event dragged into a timed slot.
    - [CalendarRefinement]: the abstract calendar of the spec (the store
      changed by at most one operation per gesture, [AOp] and [astep]),
      the operation of each gesture ([gesture_op]) and its conditions
      ([gesture_ok]), and the simulation of the abstract calendar by
      [handle] followed by [settle]; each gesture has its own lemma.
      Section [Atomicity] classifies continuations into pure ones and
      writes ([pure_job], [job_write]) and proves the invariant
      [atomic_inv] (at most one pending write, producing the spec's
      operation) along every run with rejections.
    - [Contacts]: contacts.js.  The class [ContactStore] with its laws
      [ContactStoreLaws], the world [CWorld] (store, [contactList], the
      queue of [setTimeout] callbacks, notifications, outcomes of the
      grid's promises, the edit panel [Popup]), [mountContacts],
      [handlePopUp], [onRowAdd], [onRowDelete], the
      timer callbacks [run_timer] and [fire]; each timer carries the
      [contactList] of the render whose callback set it, as the closure
      does.  [ContactDB] is a finite-map store answering a create
      synchronously, with a pending promise, or with a falsy value.
    - [ContactsGrid]: the [columns] prop of the grid ([Column],
      [columns]), the fields its add row offers ([input_fields]), the
      [newData] object it hands to [onRowAdd] and the contact read from it
      ([row_contact]).
    - [ContactsProofs]: the theorems on row add and row delete and their
      witnesses on [ContactDB].
    - [ContactsSession]: the page with its listing in flight: a
      [Session] pairs the world with the pending flag of the mount's
      promise, and [sstep] lets the listing arrive, a row gesture happen
      or a timer fire, in any order; [OfflineDB] is a contact store whose
      writes reject.

    ** What the theorems show (claim ids C1-C35)
    - The core invariant of the spec (the widget shows a permutation of
      the projection of the [remindMe] interactions of the organisation):
      established by the initial load under every completion order (C1);
      kept by any interleaving of deletes and drags with their updates
      completing in any order, as long as no event is edited again while
      its update is in flight and each drag's all-day flag is the one its
      end implies (C2; C16 and C35 show that neither condition can be
      dropped).
    - Refinement (C3): every gesture, run until its calls complete, changes
      the store by exactly the one operation the spec assigns it and keeps
      the widget the projection of the store; the conditions it needs are
      the ones of C4-C7.  Create keeps the widget consistent exactly when
      the event is all-day or has an end time and a title (C4); delete
      (C5), drag (C6) and edit (C7) keep it.
    - Handler behaviour: delete is a soft delete (C8); a drag writes only
      the two time fields (C9); a timed create persists exactly one new
      document with [remindMe] and the parsed instants (C10).
    - Time parsing: round trip of "HH:MM" (C11); the instant on the chosen
      day (C12); hours past 23 are accepted and roll over to a later day
      (C13).
    - Completion: completing the load in issue order shows the projection
      in the store's order (C14); whatever the order, the autocomplete
      lists end as the labelled listings of the organisation (C27).
    - Rejected calls: failures during the load only lose events, never
      show a wrong or duplicated one (C29); a delete or drag whose update
      rejects leaves the widget apart from the store (C30); a create whose
      call rejects changes nothing but the error log (C31); whatever calls
      of a gesture reject, the store ends unchanged or changed by exactly
      the spec's operation (C34).
    - What the code gets wrong or leaves open: another completion order of
      the load shows the events in another order (C15); two drags of one
      event whose updates complete out of order leave the widget and the
      store apart (C16); an edit that clears [remindMe] is shown again
      (C17); a time without a colon stores an invalid date without any
      error (C18); a displayed interaction with no name and a missing
      contact never gets an event, against the spec's one event per
      interaction (C26); an all-day event dragged into a timed slot is
      stored with a null end, which the projection reads as all-day (C35).
    - Contacts: a resolved add appends exactly the row (C19); a rejected
      add still shows the success notification (C20); a delete removes the
      row at the grid index (C21); after the mount, completed row deletes
      keep the table a mirror of the store, so index and id stay aligned
      (C22); a row added in the session is never deleted remotely (C23);
      two callbacks of one render lose a row (C24); an asynchronous store
      is never seen to fail (C25); a row added while the listing is in
      flight wipes the loaded contacts from the table while the store keeps
      them (C28); with a store whose writes reject, adds and deletes are
      still reported done and the table stops mirroring the store (C32);
      the add row offers no id column, so a typed row never has an id
      (C33).

    ** Modelling choices and bounds
    - Numbers produced by [parseInt] are integers or NaN: a [jsnum] is
      [option Z] with [None] for NaN; floating-point rounding is not
      modelled, which is exact below 2^53, and every time value is within
      the 8.64e15 ms that [TimeClip] allows.
    - The local time zone is UTC (no offset, no daylight saving time).
    - Strings are Rocq [string]s of 8-bit code units.
    - The widget's event list is the list of inputs passed to
      [calendarApi.addEvent], in insertion order; FullCalendar's own
      normalisation of those inputs is not modelled.
    - React state updates take effect at once; the render snapshots the
      contacts callbacks close over are kept explicitly.  The contacts
      mount ([Promise.resolve(...).then]) is taken as completed before the
      first row gesture in [Contacts] and [ContactsProofs]; [ContactsSession]
      drops that assumption.
    - Remote calls complete in any order ([step], [job_step]) or in issue
      order ([settle] with fuel).  The fuel the theorems use is the number
      of pending continuations they run: 1 for one handler's call, 2 for
      an edit (the save and its refresh), and 4 + n for the mount (three
      fetches, the load, one [addEvent] per reminded document).  [settle]
      always returns; the refinement C3 shows that this fuel leaves no
      call pending for every gesture ([refines] includes [jobs = []]), so
      the handler theorems speak of the completed gesture.
    - Projection: [projection] leaves out a document whose event cannot
      be built ([addEvent] raises), so the consistency theorems compare
      the widget with what the code can show; C26 states the gap to the
      spec's one event per interaction.
    - Remote calls resolve ([job_step], [settle]) or, in
      [CalendarFailure], may also reject ([fail_step]); a rejected write
      writes nothing.  The store laws describe the resolving calls only.
    - [ContactsPage] reads [org] from its props, which the page wrapper
      [Contacts] does not pass in the sources ([<ContactsPage />]); the
      model takes [org.id] as supplied (by [Layout], which is not among
      the sources).
    - An input the user left empty in the grid's add row is absent from
      [newData] ([undefined]); [row_contact] reads it as the empty string,
      since the store contract takes strings.
    - Assumptions on code outside the repository.  The interaction store
      keeps the title of [createNewInteraction] under [name], the field
      [addEvent] reads it from ([NewInteraction.to_doc]).  A stored time
      is its time value in milliseconds, so [Timestamp.toDate()] is the
      identity ([addEvent_input]).  [deleteContact(undefined)] removes
      nothing and returns normally (law [delete_undefined]; the spec's
      [delete(id) -> void] does not say).  The creation popup passes each
      optional argument of [createNewEventDate] as a string or omits it:
      a default parameter applies to [undefined] only, and a [null]
      argument is not a value of the model.
    - Interfaces: the controller theorems are proved against
      [InteractionStoreLaws] and [ContactStoreLaws], so they hold for every
      store that satisfies them; the finite-map stores discharge the laws
      and run the witnesses.

    ** Not modelled
    JSX rendering other than the grid's columns (the FullCalendar view
    options, the table options and title), the table icons and theme, the
    [Layout] and [Seo] wrapper, the popups' own form state (their results enter as the
    handlers' arguments; the edit panel of the contacts page is modelled
    only by what [handlePopUp] sets), and the remote backend itself
    (modelled from the spec's store contracts).  The [label] field the
    autocomplete loops add is kept as a pair beside each document
    ([labelled]): the loops mutate objects no other code holds.
*)

From stdpp Require Export base list gmap strings.
From Stdlib Require Export ZArith Lia.

Declare Scope rdex_scope.
Delimit Scope rdex_scope with rdex.
Open Scope rdex_scope.

(** A default parameter [arg = d] of a JavaScript function: [d] when the
    argument is [undefined] ([None]), the argument otherwise. *)
Notation "x ?? d" := (default d x) (at level 50, left associativity) : rdex_scope.

Create HintDb rdex.
Create Rewrite HintDb rdex_rw.

Ltac invc H := inversion H; subst; clear H.

(** Decide a decidable proposition on concrete data by evaluation. *)
Ltac vm_decide :=
  lazymatch goal with
  | |- _ = _ => first [vm_compute; exact eq_refl | apply (bool_decide_unpack _); vm_compute; exact I]
  | _ => apply (bool_decide_unpack _); vm_compute; exact I
  end.
Ltac vm_refute := apply (bool_decide_eq_false_1 _); vm_compute; exact eq_refl.

(** Generic facts on lists that the components share. *)
Section ListFacts.
Context {A B C : Type}.

Lemma filter_Permutation (f : A -> bool) (l k : list A) :
  l ≡ₚ k -> List.filter f l ≡ₚ List.filter f k.
Proof.
  induction 1 as [| x l k _ IH | x y l | l m k _ IH1 _ IH2]; simpl.
  - done.
  - destruct (f x); [by constructor | done].
  - destruct (f x), (f y); try done; by constructor.
  - by etrans.
Qed.

Lemma elem_of_filter_bool (f : A -> bool) (l : list A) x :
  x ∈ List.filter f l <-> x ∈ l /\ f x = true.
Proof. rewrite !list_elem_of_In. apply filter_In. Qed.

Lemma NoDup_filter_bool (f : A -> bool) (l : list A) :
  NoDup l -> NoDup (List.filter f l).
Proof.
  induction 1 as [| x l Hx _ IH]; simpl; [constructor |].
  destruct (f x); [| done]. constructor; [| done].
  rewrite elem_of_filter_bool. intros [? _]. done.
Qed.

(** Two duplicate-free lists with the same members are permutations. *)
Lemma perm_of_same_elems (l k : list A) :
  NoDup l -> NoDup k -> (forall x, x ∈ l <-> x ∈ k) -> l ≡ₚ k.
Proof. apply NoDup_Permutation. Qed.

(** [omap] keeps keys unique when each output keeps its input's key. *)
Lemma NoDup_map_omap (f : A -> option B) (g : B -> C) (h : A -> C) (l : list A) :
  (forall x y, f x = Some y -> g y = h x) ->
  NoDup (map h l) -> NoDup (map g (omap f l)).
Proof.
  intros Hk. induction l as [| x l IH]; simpl; [constructor |].
  intros Hnd. apply NoDup_cons in Hnd as [Hx Hnd].
  destruct (f x) as [y |] eqn:Hf; simpl; [| auto].
  constructor; [| auto]. rewrite (Hk _ _ Hf).
  intros Hin. apply Hx. apply list_elem_of_In in Hin.
  apply in_map_iff in Hin as (y' & Hy' & Hin).
  apply list_elem_of_In, list_elem_of_omap in Hin as (x' & Hx' & Hf').
  rewrite <- Hy', (Hk _ _ Hf'). apply list_elem_of_In, in_map, list_elem_of_In, Hx'.
Qed.

Lemma omap_cons_option_list (f : A -> option B) x (l : list A) :
  omap f (x :: l) = option_list (f x) ++ omap f l.
Proof. simpl. by destruct (f x). Qed.

Lemma omap_ext_in (f g : A -> option B) (l : list A) :
  (forall x, x ∈ l -> f x = g x) -> omap f l = omap g l.
Proof.
  induction l as [| x l IH]; intros Hfg; simpl; [done |].
  rewrite (Hfg x) by set_solver.
  destruct (g x); [f_equal |]; apply IH; set_solver.
Qed.

(** Deleting past the end of a list leaves it as it is. *)
Lemma delete_ge (l : list A) i : length l <= i -> delete i l = l.
Proof. intros Hi. rewrite delete_take_drop, take_ge, drop_ge by lia. apply app_nil_r. Qed.

End ListFacts.

#[export] Instance filter_bool_Proper {A} (f : A -> bool) :
  Proper (Permutation ==> Permutation) (List.filter f).
Proof. intros l k. apply filter_Permutation. Qed.

#[export] Hint Resolve NoDup_filter_bool perm_of_same_elems : rdex.
