(* ===== verification/JsRuntime.v ===== *)
(** * The JavaScript built-ins the controllers rely on

    ECMAScript semantics of the few built-ins whose behaviour the theorems
    depend on: truthiness ([ToBoolean], as the [Truthy] class),
    [parseInt] with its implicit radix, [String.prototype.split] on a one
    character separator, [Array.prototype.splice(start, 1)], and Date time
    values with [TimeClip], [MakeTime], [MakeDate] and
    [Date.prototype.setHours] (local time zone UTC).  A JS number that the
    code can produce here is an integer or NaN, written [jsnum] = [option Z]. *)

From S2P Require Import Prelude.
From Stdlib Require Export Ascii.
From stdpp Require Export pretty.

Local Open Scope string_scope.
Local Open Scope Z_scope.

(** ** Truthiness *)

Class Truthy (A : Type) := truthy : A -> bool.
Global Hint Mode Truthy ! : typeclass_instances.

#[export] Instance truthy_bool : Truthy bool := fun b => b.
(** The empty string is the only falsy string. *)
#[export] Instance truthy_string : Truthy string := fun s => negb (String.eqb s "").
(** [0] and NaN are the falsy numbers. *)
#[export] Instance truthy_Z : Truthy Z := fun z => negb (Z.eqb z 0).
(** [undefined] and [null] are falsy. *)
#[export] Instance truthy_option {A} `{Truthy A} : Truthy (option A) :=
  fun o => match o with Some x => truthy x | None => false end.

Lemma truthy_Some {A} `{Truthy A} (x : A) : truthy (Some x) = truthy x.
Proof. done. Qed.

Lemma truthy_string_false (s : string) : truthy s = false <-> s = "".
Proof. unfold truthy, truthy_string. rewrite negb_false_iff. apply String.eqb_eq. Qed.

Definition jsnum := option Z.
Definition NaN : jsnum := None.

(** ** parseInt *)

(** The white space that [TrimString] strips, on 8-bit code units. *)
Definition js_whitespace (c : ascii) : bool :=
  let n := N_of_ascii c in
  ((9 <=? n) && (n <=? 13) || (n =? 32) || (n =? 160))%N.

Fixpoint trim_start (s : string) : string :=
  match s with
  | String c s' => if js_whitespace c then trim_start s' else s
  | EmptyString => EmptyString
  end.

(** Value of a digit of radix up to 36. *)
Definition digit_value (c : ascii) : option Z :=
  let n := Z.of_N (N_of_ascii c) in
  if (48 <=? n) && (n <=? 57) then Some (n - 48)
  else if (97 <=? n) && (n <=? 122) then Some (n - 87)
  else if (65 <=? n) && (n <=? 90) then Some (n - 55)
  else None.

(** The value of the longest prefix of radix-[R] digits; [acc] is [None]
    until a digit has been read. *)
Fixpoint digits_value (R : Z) (s : string) (acc : option Z) : option Z :=
  match s with
  | EmptyString => acc
  | String c s' =>
      match digit_value c with
      | Some d => if d <? R then digits_value R s' (Some ((acc ?? 0) * R + d)) else acc
      | None => acc
      end
  end.

(** [parseInt(x)] with the radix left undefined (ES2024 19.2.5). *)
Definition parseInt (s : string) : jsnum :=
  let s := trim_start s in
  let '(sign, s) :=
    match s with
    | String c s' =>
        if Ascii.eqb c "-"%char then (-1, s')
        else if Ascii.eqb c "+"%char then (1, s') else (1, s)
    | EmptyString => (1, s)
    end in
  let '(R, s) :=
    match s with
    | String c (String x s') =>
        if Ascii.eqb c "0"%char && (Ascii.eqb x "x"%char || Ascii.eqb x "X"%char)
        then (16, s') else (10, s)
    | _ => (10, s)
    end in
  (fun v => sign * v) <$> digits_value R s None.

(** ** String.prototype.split with a one character separator *)

Fixpoint str_split (sep : ascii) (s : string) : list string :=
  match s with
  | EmptyString => [EmptyString]
  | String c s' =>
      let rest := str_split sep s' in
      if Ascii.eqb c sep then EmptyString :: rest
      else match rest with
           | r :: rs => String c r :: rs
           | [] => [String c EmptyString]
           end
  end.

(** [xs[i]] on an array of numbers, then [ToNumber]: a missing element is
    [undefined], which converts to NaN. *)
Definition num_at (xs : list jsnum) (i : nat) : jsnum := xs !! i ?? NaN.

(** ** Array.prototype.splice(start, 1) *)

(** [ToIntegerOrInfinity(NaN)] is 0; a negative start counts from the end;
    a start past the end deletes nothing. *)
Definition splice1 {A} (l : list A) (start : jsnum) : list A :=
  let len := Z.of_nat (length l) in
  let rel := start ?? 0 in
  let actual := if rel <? 0 then Z.max (len + rel) 0 else Z.min rel len in
  delete (Z.to_nat actual) l.

(** ** Date time values *)

(** A time value: milliseconds since the epoch, or NaN ([None]). *)
Definition time_value := option Z.

Definition msPerSecond : Z := 1000.
Definition msPerMinute : Z := 60000.
Definition msPerHour : Z := 3600000.
Definition msPerDay : Z := 86400000.

Definition TimeClip (t : Z) : time_value :=
  if Z.abs t <=? 8640000000000000 then Some t else None.

Definition Day (t : Z) : Z := t `div` msPerDay.

Definition MakeTime (h m s ms : jsnum) : jsnum :=
  h ← h; m ← m; s ← s; ms ← ms;
  Some (h * msPerHour + m * msPerMinute + s * msPerSecond + ms).

Definition MakeDate (day time : Z) : Z := day * msPerDay + time.

(** [new Date(d)] on a Date [d]: its time value, clipped. *)
Definition new_Date (d : time_value) : time_value := d ≫= TimeClip.

(** [d.setHours(h, m, s, ms)] in the UTC time zone: the new time value. *)
Definition setHours (t : time_value) (h m s ms : jsnum) : time_value :=
  match t, MakeTime h m s ms with
  | Some t, Some tm => TimeClip (MakeDate (Day t) tm)
  | _, _ => NaN
  end.

(** ** Facts *)

Section ParseIntFacts.

(** The decimal printing of stdpp ([pretty] on [N]) read back by
    [parseInt], and the zero-padded two digit form of times. *)
Definition pad2 (n : N) : string :=
  if decide (n < 10)%N then "0" +:+ pretty n else pretty n.

Fixpoint all_chars (p : ascii -> bool) (s : string) : bool :=
  match s with
  | EmptyString => true
  | String c s' => p c && all_chars p s'
  end.

Definition is_decimal_digit (c : ascii) : bool :=
  match digit_value c with Some d => d <? 10 | None => false end.

Lemma digit_value_pretty_char (d : N) :
  (d < 10)%N -> digit_value (pretty_N_char d) = Some (Z.of_N d).
Proof.
  intros Hd.
  assert (d = 0 \/ d = 1 \/ d = 2 \/ d = 3 \/ d = 4 \/ d = 5 \/ d = 6 \/ d = 7
          \/ d = 8 \/ d = 9)%N as Hc by lia.
  repeat destruct Hc as [-> | Hc]; [done .. | subst; done].
Qed.

Lemma digits_value_pretty_char (d : N) s acc :
  (d < 10)%N ->
  digits_value 10 (String (pretty_N_char d) s) acc
  = digits_value 10 s (Some ((acc ?? 0) * 10 + Z.of_N d)).
Proof.
  intros Hd. simpl. rewrite digit_value_pretty_char by done.
  replace (Z.of_N d <? 10) with true by (symmetry; apply Z.ltb_lt; lia). done.
Qed.

Lemma digits_value_pretty_go (x : N) s :
  (0 < x)%N -> digits_value 10 (pretty_N_go x s) None = digits_value 10 s (Some (Z.of_N x)).
Proof.
  revert s. induction (N.lt_wf_0 x) as [x _ IH]; intros s Hx.
  rewrite pretty_N_go_step by done.
  destruct (N.lt_ge_cases x 10) as [Hlt | Hge].
  - rewrite N.div_small, pretty_N_go_0, digits_value_pretty_char by (done || apply N.mod_lt; lia).
    do 2 f_equal. simpl. rewrite N.mod_small; lia.
  - rewrite IH by (apply N.div_lt || apply N.div_str_pos; lia).
    rewrite digits_value_pretty_char by (apply N.mod_lt; lia).
    do 2 f_equal. simpl. rewrite (N.div_mod x 10) at 3 by lia. lia.
Qed.

Lemma pretty_N_go_head (x : N) s :
  (0 < x)%N -> exists d t, (0 < d < 10)%N /\ pretty_N_go x s = String (pretty_N_char d) t.
Proof.
  revert s. induction (N.lt_wf_0 x) as [x _ IH]; intros s Hx.
  rewrite pretty_N_go_step by done.
  destruct (N.lt_ge_cases x 10) as [Hlt | Hge].
  - rewrite N.div_small, pretty_N_go_0 by done. exists (x `mod` 10)%N, s.
    rewrite N.mod_small by lia. split; [lia | done].
  - apply IH; [apply N.div_lt | apply N.div_str_pos]; lia.
Qed.

Lemma fmap_mul_1 (o : option Z) : (fun v => 1 * v) <$> o = o.
Proof. destruct o; simpl; [f_equal; lia | done]. Qed.

(** On a string whose first character is neither white space, a sign nor
    a zero, [parseInt] reads decimal digits. *)
Lemma parseInt_plain_head c t :
  js_whitespace c = false -> Ascii.eqb c "-"%char = false ->
  Ascii.eqb c "+"%char = false -> Ascii.eqb c "0"%char = false ->
  parseInt (String c t) = digits_value 10 (String c t) None.
Proof.
  intros H1 H2 H3 H4. unfold parseInt. simpl. rewrite H1, H2, H3.
  destruct t as [| x t]; [| rewrite H4]; apply fmap_mul_1.
Qed.

Lemma parseInt_nonzero_head (d : N) t :
  (0 < d < 10)%N ->
  parseInt (String (pretty_N_char d) t) = digits_value 10 (String (pretty_N_char d) t) None.
Proof.
  intros Hd.
  assert (d = 1 \/ d = 2 \/ d = 3 \/ d = 4 \/ d = 5 \/ d = 6 \/ d = 7
          \/ d = 8 \/ d = 9)%N as Hc by lia.
  repeat destruct Hc as [-> | Hc]; [.. | subst]; by apply parseInt_plain_head.
Qed.

Lemma parseInt_pretty (n : N) : parseInt (pretty n) = Some (Z.of_N n).
Proof.
  unfold pretty, pretty_N. case_decide as Hn; [by subst |].
  destruct (pretty_N_go_head n "") as (d & t & Hd & Heq); [lia |].
  rewrite Heq, parseInt_nonzero_head, <- Heq by done.
  rewrite digits_value_pretty_go by lia. done.
Qed.

Lemma parseInt_pad2 (n : N) : parseInt (pad2 n) = Some (Z.of_N n).
Proof.
  unfold pad2. case_decide as Hn; [| apply parseInt_pretty].
  destruct n as [| p]; [done |].
  do 4 (destruct p as [p | p |]; try done); lia.
Qed.

Lemma all_chars_pretty_go (p : ascii -> bool) (x : N) s :
  (forall d, p (pretty_N_char d) = true) -> all_chars p s = true ->
  all_chars p (pretty_N_go x s) = true.
Proof.
  intros Hp. revert s. induction (N.lt_wf_0 x) as [x _ IH]; intros s Hs.
  destruct (decide (x = 0)%N) as [-> | Hx]; [by rewrite pretty_N_go_0 |].
  rewrite pretty_N_go_step by lia. apply IH; [apply N.div_lt; lia |].
  simpl. rewrite Hp. done.
Qed.

Lemma all_chars_pad2 (p : ascii -> bool) (n : N) :
  (forall d, p (pretty_N_char d) = true) -> all_chars p (pad2 n) = true.
Proof.
  intros Hp.
  pose proof (Hp 0%N) as H0. simpl in H0.
  assert (all_chars p (pretty n) = true).
  { unfold pretty, pretty_N. case_decide; [simpl; by rewrite H0 | by apply all_chars_pretty_go]. }
  unfold pad2. case_decide; [| done]. simpl. by rewrite H0.
Qed.

Lemma str_split_no_sep sep s :
  all_chars (fun c => negb (Ascii.eqb c sep)) s = true -> str_split sep s = [s].
Proof.
  induction s as [| c s IH]; simpl; [done |].
  destruct (Ascii.eqb c sep); simpl; [done |]. intros Hs. rewrite IH by done. done.
Qed.

Lemma str_split_app sep a b :
  all_chars (fun c => negb (Ascii.eqb c sep)) a = true ->
  str_split sep (a +:+ String sep b) = a :: str_split sep b.
Proof.
  induction a as [| c a IH]; simpl; intros Ha.
  - rewrite Ascii.eqb_refl. done.
  - destruct (Ascii.eqb c sep); simpl in *; [done |]. rewrite IH by done. done.
Qed.
End ParseIntFacts.

#[export] Hint Rewrite parseInt_pretty parseInt_pad2 @truthy_Some : rdex_rw.

Section DateFacts.
Definition max_time : Z := 8640000000000000.

Lemma setHours_hm t h m :
  setHours (Some t) (Some h) (Some m) (Some 0) (Some 0)
  = TimeClip (Day t * msPerDay + h * msPerHour + m * msPerMinute).
Proof. unfold setHours, MakeTime, MakeDate. simpl. f_equal. lia. Qed.

(** A time of day within 00:00-23:59 lands on the same day, at that
    offset from midnight, when the day is away from the end of time. *)
Lemma setHours_same_day t h m :
  0 <= h < 24 -> 0 <= m < 60 -> Z.abs t + msPerDay <= max_time ->
  exists r, setHours (Some t) (Some h) (Some m) (Some 0) (Some 0) = Some r /\
    Day r = Day t /\ r = Day t * msPerDay + h * msPerHour + m * msPerMinute.
Proof.
  intros Hh Hm Ht. rewrite setHours_hm.
  unfold TimeClip, Day, max_time, msPerDay, msPerHour, msPerMinute in *.
  pose proof (Z.div_mod t 86400000 ltac:(lia)).
  pose proof (Z.mod_pos_bound t 86400000 ltac:(lia)).
  rewrite (proj2 (Z.leb_le _ _)) by lia.
  eexists; split; [done | split; [| done]].
  replace (t `div` 86400000 * 86400000 + h * 3600000 + m * 60000)
    with ((h * 3600000 + m * 60000) + t `div` 86400000 * 86400000) by lia.
  rewrite Z.div_add, Z.div_small; lia.
Qed.

(** Any hour count lands at [h] hours and [m] minutes after midnight of
    the day, while that instant stays within the range of time values. *)
Lemma setHours_in_range t h m :
  0 <= h -> 0 <= m < 60 -> Z.abs t + (h `div` 24 + 1) * msPerDay <= max_time ->
  setHours (Some t) (Some h) (Some m) (Some 0) (Some 0)
  = Some (Day t * msPerDay + h * msPerHour + m * msPerMinute).
Proof.
  intros Hh Hm Ht. rewrite setHours_hm.
  unfold TimeClip, Day, max_time, msPerDay, msPerHour, msPerMinute in *.
  pose proof (Z.div_mod t 86400000 ltac:(lia)).
  pose proof (Z.mod_pos_bound t 86400000 ltac:(lia)).
  pose proof (Z.div_mod h 24 ltac:(lia)).
  pose proof (Z.mod_pos_bound h 24 ltac:(lia)).
  pose proof (Z.div_pos h 24 ltac:(lia) ltac:(lia)).
  by rewrite (proj2 (Z.leb_le _ _)) by lia.
Qed.

(** Hours past 23 roll over: the day advances by [h / 24]. *)
Lemma setHours_rollover t h m r :
  0 <= h -> 0 <= m < 60 ->
  setHours (Some t) (Some h) (Some m) (Some 0) (Some 0) = Some r ->
  Day r = Day t + h `div` 24.
Proof.
  intros Hh Hm. rewrite setHours_hm. unfold TimeClip.
  case_match; [intros [= <-] | done].
  unfold Day, msPerDay, msPerHour, msPerMinute.
  rewrite (Z.div_mod h 24) at 1 by lia.
  pose proof (Z.mod_pos_bound h 24 ltac:(lia)).
  replace (t `div` 86400000 * 86400000 + (24 * (h `div` 24) + h `mod` 24) * 3600000 + m * 60000)
    with ((h mod 24 * 3600000 + m * 60000) + (t `div` 86400000 + h `div` 24) * 86400000) by lia.
  rewrite Z.div_add, Z.div_small; lia.
Qed.

(** A NaN hour or minute gives an invalid date. *)
Lemma setHours_NaN_hour t m s ms : setHours t NaN m s ms = NaN.
Proof. by destruct t. Qed.

Lemma setHours_NaN_minute t h s ms : setHours t h NaN s ms = NaN.
Proof. destruct t, h; done. Qed.
End DateFacts.

