(* ===== verification/Store.v ===== *)
(** * The remote document store

    The documents the controllers read and write, and the store they live
    in.  The store's code (the modules [models/Interaction],
    [models/Contact], [models/Deal] and [models/Task] that the controllers
    import) is not part of the sources: its contract is taken from section 6 of the
    spec and stated as the type class [InteractionStore] with the laws
    [InteractionStoreLaws]; the controllers' theorems are proved against
    the laws only.  [FireStore] (finite maps of interactions and contacts
    keyed by document id, lists of deals and tasks) implements the
    interface and discharges the laws; the witnesses run on it.  A
    document read back carries the id of its key, as a Firestore
    snapshot [{ id: snap.id, ...snap.data() }] does. *)

From S2P Require Import Prelude JsRuntime.

Local Open Scope string_scope.

(** An interaction document: the fields the calendar reads and writes. The
    title given at creation is the [name] field, which [addEvent] reads as
    [doc.name]. *)
Module Interaction.
Record t := mk {
  id : string;
  org : string;
  contact : string;
  owner : string;
  deal : string;
  meetingStart : time_value;
  type : string;
  notes : string;
  task : string;
  remindMe : bool;
  name : option string;
  meetingEnd : option time_value;
  participants : list string
}.

Definition with_id (i : string) (d : t) : t :=
  mk i d.(org) d.(contact) d.(owner) d.(deal) d.(meetingStart) d.(type) d.(notes)
    d.(task) d.(remindMe) d.(name) d.(meetingEnd) d.(participants).
End Interaction.

(** The twelve positional arguments of [createNewInteraction], in the
    order of the call in [createNewEventDate]. *)
Module NewInteraction.
Record t := mk {
  orgID : string;
  contactID : string;
  ownerID : string;
  dealID : string;
  meetingStart : time_value;
  type : string;
  notes : string;
  taskID : string;
  remindMe : bool;
  title : string;
  meetingEnd : option time_value;
  participants : list string
}.

(** The document the store writes for them under the id [i].  The store
    ([models/Interaction]) is not in the repository; [addEvent] reads the
    title back as [doc.name], so the title is taken to be stored under
    [name].  A store that kept it under another field would make every
    event of a created interaction read "Meeting with ..." after a reload. *)
Definition to_doc (i : string) (a : t) : Interaction.t :=
  Interaction.mk i a.(orgID) a.(contactID) a.(ownerID) a.(dealID) a.(meetingStart)
    a.(type) a.(notes) a.(taskID) a.(remindMe) (Some a.(title)) a.(meetingEnd)
    a.(participants).
End NewInteraction.

(** A contact document. A row added in the contacts table has no [id]. *)
Module Contact.
Record t := mk {
  id : option string;
  org : string;
  name : string;
  company : string;
  position : string;
  email : string;
  phoneNumber : string;
  notes : string
}.
End Contact.

(** A deal and a task document: the calendar reads them only for the
    autocomplete lists of its popups. *)
Module Deal.
Record t := mk { id : string; org : string; name : string }.
End Deal.

Module Task.
Record t := mk { id : string; org : string; name : string }.
End Task.

(** The partial update of [updateInteraction(id, fields)]: the fields
    present are overwritten, the others kept. *)
Module Patch.
Record t := mk {
  contact : option string;
  deal : option string;
  task : option string;
  meetingStart : option time_value;
  meetingEnd : option (option time_value);
  type : option string;
  notes : option string;
  name : option (option string);
  remindMe : option bool
}.

Definition empty : t := mk None None None None None None None None None.

Definition apply (p : t) (d : Interaction.t) : Interaction.t :=
  Interaction.mk d.(Interaction.id) d.(Interaction.org)
    (p.(contact) ?? d.(Interaction.contact)) d.(Interaction.owner)
    (p.(deal) ?? d.(Interaction.deal))
    (p.(meetingStart) ?? d.(Interaction.meetingStart))
    (p.(type) ?? d.(Interaction.type)) (p.(notes) ?? d.(Interaction.notes))
    (p.(task) ?? d.(Interaction.task)) (p.(remindMe) ?? d.(Interaction.remindMe))
    (p.(name) ?? d.(Interaction.name)) (p.(meetingEnd) ?? d.(Interaction.meetingEnd))
    d.(Interaction.participants).

(** [{ meetingStart: s, meetingEnd: e }] *)
Definition times (s : time_value) (e : option time_value) : t :=
  mk None None None (Some s) (Some e) None None None None.

(** [{ remindMe: b }] *)
Definition remind (b : bool) : t :=
  mk None None None None None None None None (Some b).
End Patch.

#[export] Instance Interaction_eq_dec : EqDecision Interaction.t.
Proof. solve_decision. Defined.
#[export] Instance Contact_eq_dec : EqDecision Contact.t.
Proof. solve_decision. Defined.
#[export] Instance NewInteraction_eq_dec : EqDecision NewInteraction.t.
Proof. solve_decision. Defined.
#[export] Instance Patch_eq_dec : EqDecision Patch.t.
Proof. solve_decision. Defined.

(** ** The store interface *)

Class InteractionStore (S : Type) := {
  createNewInteraction : S -> NewInteraction.t -> string * S;
  getInteraction : S -> string -> option Interaction.t;
  updateInteraction : S -> string -> Patch.t -> S;
  getInteractionsByOrg : S -> string -> list Interaction.t;
  getContact : S -> string -> option Contact.t;
  getContactsByOrg : S -> string -> list Contact.t;
  getDealsByOrg : S -> string -> list Deal.t;
  getTasksByOrg : S -> string -> list Task.t
}.

(** What the store promises: creation writes a fresh document and nothing
    else, an update merges its fields into the document with that id, a
    document carries its id, updates of two different documents commute,
    and the listing of an organisation holds each
    of its documents once. *)
Class InteractionStoreLaws (S : Type) `{InteractionStore S} := {
  create_fresh s a i s' :
    createNewInteraction s a = (i, s') -> getInteraction s i = None;
  create_get s a i s' :
    createNewInteraction s a = (i, s') -> getInteraction s' i = Some (NewInteraction.to_doc i a);
  create_get_ne s a i s' j :
    createNewInteraction s a = (i, s') -> j <> i -> getInteraction s' j = getInteraction s j;
  create_contact s a i s' c :
    createNewInteraction s a = (i, s') -> getContact s' c = getContact s c;
  update_get s i p j :
    getInteraction (updateInteraction s i p) j
    = if decide (j = i) then Patch.apply p <$> getInteraction s i else getInteraction s j;
  update_contact s i p c : getContact (updateInteraction s i p) c = getContact s c;
  update_comm s i j p q :
    i <> j -> updateInteraction (updateInteraction s i p) j q
              = updateInteraction (updateInteraction s j q) i p;
  get_id s i d : getInteraction s i = Some d -> Interaction.id d = i;
  by_org_elem s o d :
    d ∈ getInteractionsByOrg s o <->
    getInteraction s (Interaction.id d) = Some d /\ Interaction.org d = o;
  by_org_NoDup s o : NoDup (getInteractionsByOrg s o)
}.

(** ** A finite-map store *)

Record FireStore := {
  fs_interactions : gmap string Interaction.t;
  fs_contacts : gmap string Contact.t;
  fs_deals : list Deal.t;
  fs_tasks : list Task.t
}.

(** The contacts of a map, each read back with the id of its key. *)
Definition fs_contact_list (m : gmap string Contact.t) : list Contact.t :=
  (fun '(i, c) => Contact.mk (Some i) (Contact.org c) (Contact.name c) (Contact.company c)
                    (Contact.position c) (Contact.email c) (Contact.phoneNumber c)
                    (Contact.notes c)) <$> map_to_list m.

Definition fs_docs (m : gmap string Interaction.t) : list Interaction.t :=
  (fun '(i, d) => Interaction.with_id i d) <$> map_to_list m.

#[export] Instance FireStore_store : InteractionStore FireStore := {
  createNewInteraction s a :=
    let i := fresh (dom (fs_interactions s)) in
    (i, {| fs_interactions := <[i := NewInteraction.to_doc i a]> (fs_interactions s);
           fs_contacts := fs_contacts s; fs_deals := fs_deals s; fs_tasks := fs_tasks s |});
  getInteraction s i := Interaction.with_id i <$> fs_interactions s !! i;
  updateInteraction s i p :=
    {| fs_interactions := alter (Patch.apply p) i (fs_interactions s);
       fs_contacts := fs_contacts s; fs_deals := fs_deals s; fs_tasks := fs_tasks s |};
  getInteractionsByOrg s o :=
    List.filter (fun d => String.eqb (Interaction.org d) o) (fs_docs (fs_interactions s));
  getContact s c := fs_contacts s !! c;
  getContactsByOrg s o :=
    List.filter (fun c => String.eqb (Contact.org c) o) (fs_contact_list (fs_contacts s));
  getDealsByOrg s o := List.filter (fun d => String.eqb (Deal.org d) o) (fs_deals s);
  getTasksByOrg s o := List.filter (fun t => String.eqb (Task.org t) o) (fs_tasks s)
}.

Lemma with_id_id i d : Interaction.id (Interaction.with_id i d) = i.
Proof. done. Qed.

Lemma with_id_twice i j d : Interaction.with_id i (Interaction.with_id j d) = Interaction.with_id i d.
Proof. done. Qed.

Lemma with_id_apply i p d :
  Interaction.with_id i (Patch.apply p d) = Patch.apply p (Interaction.with_id i d).
Proof. done. Qed.

Lemma fs_docs_elem m d :
  d ∈ fs_docs m <-> Interaction.with_id (Interaction.id d) <$> m !! Interaction.id d = Some d.
Proof.
  unfold fs_docs. rewrite list_elem_of_fmap. split.
  - intros ([i x] & -> & Hin). apply elem_of_map_to_list in Hin.
    rewrite with_id_id, Hin. done.
  - destruct (m !! Interaction.id d) as [x |] eqn:Hx; simpl; [| done].
    intros [= Heq]. exists (Interaction.id d, x). split; [done |].
    by apply elem_of_map_to_list.
Qed.

Lemma fs_docs_NoDup m : NoDup (fs_docs m).
Proof.
  apply (NoDup_fmap_1 Interaction.id).
  assert (Interaction.id <$> fs_docs m = (map_to_list m).*1) as ->.
  { unfold fs_docs. rewrite <- list_fmap_compose. apply list_fmap_ext. by intros i [k x] _. }
  apply NoDup_fst_map_to_list.
Qed.

#[export] Instance FireStore_laws : InteractionStoreLaws FireStore.
Proof.
  split; simpl.
  - intros s a i s' [= <- _]. apply fmap_None, not_elem_of_dom, is_fresh.
  - intros s a i s' [= <- <-]. simpl. by rewrite lookup_insert_eq.
  - intros s a i s' j [= <- <-] Hj. simpl. by rewrite lookup_insert_ne.
  - by intros s a i s' c [= <- <-].
  - intros s i p j. rewrite lookup_alter.
    destruct (decide (i = j)), (decide (j = i)); subst; try congruence.
    by destruct (fs_interactions s !! _).
  - done.
  - intros s i j p q Hij. by rewrite alter_alter_ne by done.
  - intros s i d. destruct (fs_interactions s !! i); simpl; [| done]. by intros [= <-].
  - intros s o d. rewrite elem_of_filter_bool, fs_docs_elem, String.eqb_eq. done.
  - intros s o. apply NoDup_filter_bool, fs_docs_NoDup.
Qed.
