(* ===== verification/Calendar.v ===== *)
(** * The calendar reconciliation controller

    [src/src/components/calendar/calendarComponent.js] as explicit state
    passing.  A [World] holds the remote store, the FullCalendar widget's
    event list ([calendarApi.getEvents()], in insertion order), the
    continuations waiting on a remote call ([jobs]: each [await] or
    [.then] of the source), the notifications shown, the errors raised
    (TypeErrors and unhandled rejections) and the React state of the
    component ([date], the two disclosures, [editDoc], the autocomplete
    lists [contacts], [deals], [tasks]).  Each handler of
    the source is one definition; [run_job] resumes one continuation; the
    relation [step] lets the user act or any pending call complete, in any
    order, and [settle] completes them in the order they were issued. *)

From S2P Require Import Prelude JsRuntime Store.


(** The event input passed to [calendarApi.addEvent]. *)
Module Event.
Record t := mk {
  id : string;
  title : string;
  start : time_value;
  end_ : option time_value;
  allDay : bool
}.
End Event.

#[export] Instance Event_eq_dec : EqDecision Event.t.
Proof. solve_decision. Defined.

(** A continuation waiting for a remote call. *)
Inductive Job :=
  (** [addEvent(doc)] waiting for [getContact(doc.contact)] (line 81) *)
  | AddEventJob (doc : Interaction.t)
  (** [loadEvents()] waiting for [getInteractionsByOrg(org.id)] (line 94) *)
  | LoadEventsJob
  (** [createNewInteraction(...).then(...)] (lines 146-175); the flag is
      [isAllDay] *)
  | CreateJob (args : NewInteraction.t) (isAllDay : bool)
  (** an [updateInteraction(id, fields)] in flight (lines 186, 198) *)
  | UpdateJob (id : string) (p : Patch.t)
  (** [getInteraction(id).then(...)] of [handleEdit] (lines 206-209) *)
  | EditFetchJob (id : string)
  (** [afterUpdate] waiting for [getInteraction(editDoc.id)] (line 253) *)
  | AfterUpdateJob (id : string)
  (** the mount effect's [fetchContacts], [fetchDeals] and [fetchTasks]
      waiting for their listing (lines 52-69) *)
  | FetchContactsJob
  | FetchDealsJob
  | FetchTasksJob.

#[export] Instance Job_eq_dec : EqDecision Job.
Proof. solve_decision. Defined.

(** [doc?.name ? doc.name : "Meeting with "%string + contact.name]: reading
    [.name] of a contact that was not found raises a TypeError ([None]). *)
Definition event_title (doc : Interaction.t) (contact : option Contact.t) : option string :=
  if truthy (Interaction.name doc) then Interaction.name doc
  else (fun c => "Meeting with "%string +:+ Contact.name c) <$> contact.

(** The object literal of [addEvent] (lines 82-88).  A stored time is
    kept as its time value in milliseconds, for which the Firestore
    [Timestamp.toDate()] gives a Date with that same time value: the
    conversion is the identity here (sub-millisecond precision, which the
    calendar never writes, is not modelled). *)
Definition addEvent_input (doc : Interaction.t) (contact : option Contact.t) : option Event.t :=
  title ← event_title doc contact;
  Some (Event.mk (Interaction.id doc) title (Interaction.meetingStart doc)
          (Interaction.meetingEnd doc)
          (match Interaction.meetingEnd doc with None => true | Some _ => false end)).

(** [time.split(":").map(x => parseInt(x))] (lines 134, 141). *)
Definition parse_time (time : string) : list jsnum := map parseInt (str_split ":"%char time).

(** [let d = new Date(startDate); d.setHours(f[0], f[1], 0, 0)]
    (lines 133-135, 140-142). *)
Definition at_time (startDate : time_value) (time : string) : time_value :=
  let f := parse_time time in
  setHours (new_Date startDate) (num_at f 0) (num_at f 1) (Some 0%Z) (Some 0%Z).

(** [calendarApi.getEventById(id)]: the first event with that id. *)
Fixpoint getEventById (evs : list Event.t) (i : string) : option nat :=
  match evs with
  | [] => None
  | ev :: evs' =>
      if String.eqb (Event.id ev) i then Some 0 else S <$> getEventById evs' i
  end.

(** [for (const x of xs) x.label = x.name]: each fetched document with the
    [label] field the loop adds. *)
Definition labelled {A} (name : A -> string) (xs : list A) : list (A * string) :=
  (fun x => (x, name x)) <$> xs.

(** The React state of the component besides the widget: [date], the two
    disclosures, [editDoc], and the autocomplete lists [contacts], [deals]
    and [tasks] (lines 37-48). *)
Record Ui := mkUi {
  date : time_value;
  isOpen : bool;
  isOpenEdit : bool;
  editDoc : option Interaction.t;
  contacts : list (Contact.t * string);
  deals : list (Deal.t * string);
  tasks : list (Task.t * string)
}.

(** A user gesture on the widget or in a popup. *)
Inductive Gesture :=
  | Mount
  | DateClick (d : time_value)
  (** the creation popup calls [createEventObject] *)
  | SubmitCreate (title : string) (startDate : time_value) (startTime : string)
      (endTime : option string) (isAllDay : bool)
      (contactID dealID taskID type notes : option string)
  (** the delete button of the [k]-th event *)
  | DeleteClick (k : nat)
  (** the [k]-th event dragged or resized to a new start, end and all-day flag *)
  | Drag (k : nat) (start : time_value) (end_ : option time_value) (allDay : bool)
  (** the edit button of the [k]-th event *)
  | EditClick (k : nat)
  (** the edit popup saves the fields of [p] and calls [afterUpdate] *)
  | EditSubmit (p : Patch.t).

Section Controller.
Context {St : Type} `{!InteractionStore St}.
(** The [user.id] and [org.id] props. *)
Variables (user_id org_id : string).

Record World := mkWorld {
  store : St;
  events : list Event.t;
  jobs : list Job;
  toasts : list string;
  errors : list string;
  ui : Ui
}.

Definition set_store (w : World) (s : St) : World :=
  mkWorld s (events w) (jobs w) (toasts w) (errors w) (ui w).
Definition set_events (w : World) (evs : list Event.t) : World :=
  mkWorld (store w) evs (jobs w) (toasts w) (errors w) (ui w).
Definition set_jobs (w : World) (js : list Job) : World :=
  mkWorld (store w) (events w) js (toasts w) (errors w) (ui w).
Definition set_ui (w : World) (u : Ui) : World :=
  mkWorld (store w) (events w) (jobs w) (toasts w) (errors w) u.
Definition spawn (w : World) (js : list Job) : World := set_jobs w (jobs w ++ js).
Definition raise (w : World) (e : string) : World :=
  mkWorld (store w) (events w) (jobs w) (toasts w) (errors w ++ [e]) (ui w).
Definition toast (w : World) (t : string) : World :=
  mkWorld (store w) (events w) (jobs w) (toasts w ++ [t]) (errors w) (ui w).

(** ** Handlers *)

(** [addEvent(doc)] up to its [await] (lines 79-81). *)
Definition addEvent (w : World) (doc : Interaction.t) : World := spawn w [AddEventJob doc].

(** [loadEvents()] up to its [await] (lines 92-94). *)
Definition loadEvents (w : World) : World := spawn w [LoadEventsJob].

(** [clearEvents()] (lines 106-111). *)
Definition clearEvents (w : World) : World := set_events w [].

(** The mount effect (lines 50-76): [fetchContacts], [fetchDeals] and
    [fetchTasks] each run up to their [await], then [clearEvents()] and
    [loadEvents()]. *)
Definition mount (w : World) : World :=
  loadEvents (clearEvents (spawn w [FetchContactsJob; FetchDealsJob; FetchTasksJob])).

(** [handleDateSelected] (lines 114-117). *)
Definition handleDateSelected (w : World) (d : time_value) : World :=
  set_ui w (mkUi d true (isOpenEdit (ui w)) (editDoc (ui w)) (contacts (ui w)) (deals (ui w))
              (tasks (ui w))).

(** [createNewEventDate] up to its [.then] (lines 120-159).  An optional
    argument is [None] when the caller omits it (is [undefined]), and the
    default parameter [= ""] applies; a [null] argument, which a default
    parameter would pass through, is outside the model: the argument
    types here are a string or nothing. *)
Definition createNewEventDate (w : World) (title : string) (startDate : time_value)
    (startTime : string) (endTime : option string) (isAllDay : bool)
    (contactID dealID taskID type notes : option string) : World :=
  let start := at_time startDate startTime in
  let end_ :=
    match endTime with
    | Some e => if truthy e && negb isAllDay then Some (at_time startDate e) else None
    | None => None
    end in
  spawn w [CreateJob (NewInteraction.mk org_id (contactID ?? ""%string) user_id (dealID ?? ""%string) start
                        (type ?? ""%string) (notes ?? ""%string) (taskID ?? ""%string) true title end_ [user_id])
                     isAllDay].

(** [deleteEvent] of [renderEventContent] on the [k]-th event: remove it
    from the widget, then [updateInteraction(id, { remindMe: false })]
    (lines 184-187). *)
Definition deleteEvent (w : World) (k : nat) : World :=
  match events w !! k with
  | Some ev => spawn (set_events w (delete k (events w))) [UpdateJob (Event.id ev) (Patch.remind false)]
  | None => w
  end.

(** [updateEvent(changeInfo)] (lines 197-202). *)
Definition updateEvent (w : World) (ev : Event.t) : World :=
  spawn w [UpdateJob (Event.id ev) (Patch.times (Event.start ev) (Event.end_ ev))].

(** A drag or resize: the widget moves its [k]-th event, then fires
    [eventChange] with it. *)
Definition dragEvent (w : World) (k : nat) (s : time_value) (e : option time_value)
    (ad : bool) : World :=
  match events w !! k with
  | Some ev =>
      let ev' := Event.mk (Event.id ev) (Event.title ev) s e ad in
      updateEvent (set_events w (<[k := ev']> (events w))) ev'
  | None => w
  end.

(** [handleEdit(id)] up to its [.then] (lines 205-206). *)
Definition handleEdit (w : World) (i : string) : World := spawn w [EditFetchJob i].

(** [afterUpdate] up to its [await] (lines 250-253): [getEventById]
    returning [null] makes [.remove()] raise. *)
Definition afterUpdate (w : World) : World :=
  match editDoc (ui w) with
  | None => raise w "TypeError"%string
  | Some d =>
      match getEventById (events w) (Interaction.id d) with
      | None => raise w "TypeError"%string
      | Some k => spawn (set_events w (delete k (events w))) [AfterUpdateJob (Interaction.id d)]
      end
  end.

(** The edit popup saves its fields for [editDoc], then calls
    [afterUpdate]. *)
Definition editSubmit (w : World) (p : Patch.t) : World :=
  match editDoc (ui w) with
  | None => raise w "TypeError"%string
  | Some d => afterUpdate (set_store w (updateInteraction (store w) (Interaction.id d) p))
  end.

Definition handle (w : World) (g : Gesture) : World :=
  match g with
  | Mount => mount w
  | DateClick d => handleDateSelected w d
  | SubmitCreate t sd st et ad c dl tk ty n => createNewEventDate w t sd st et ad c dl tk ty n
  | DeleteClick k => deleteEvent w k
  | Drag k s e ad => dragEvent w k s e ad
  | EditClick k =>
      match events w !! k with Some ev => handleEdit w (Event.id ev) | None => w end
  | EditSubmit p => editSubmit w p
  end.

(** ** Completion of remote calls *)

(** Resume one continuation; the store answers at that moment. *)
Definition run_job (w : World) (j : Job) : World :=
  match j with
  | AddEventJob doc =>
      match addEvent_input doc (getContact (store w) (Interaction.contact doc)) with
      | Some ev => set_events w (events w ++ [ev])
      | None => raise w "TypeError"%string
      end
  | LoadEventsJob =>
      let interactions := getInteractionsByOrg (store w) org_id in
      let evs := List.filter (fun doc => truthy (Interaction.remindMe doc)) interactions in
      spawn w (AddEventJob <$> evs)
  | CreateJob a isAllDay =>
      let '(docID, s') := createNewInteraction (store w) a in
      let ev := Event.mk docID (NewInteraction.title a) (NewInteraction.meetingStart a)
                  (NewInteraction.meetingEnd a) isAllDay in
      toast (set_events (set_store w s') (events w ++ [ev])) "Interaction Successfully Added"%string
  | UpdateJob i p => set_store w (updateInteraction (store w) i p)
  | EditFetchJob i =>
      set_ui w (mkUi (date (ui w)) (isOpen (ui w)) true (getInteraction (store w) i)
                  (contacts (ui w)) (deals (ui w)) (tasks (ui w)))
  | AfterUpdateJob i =>
      match getInteraction (store w) i with
      | Some doc => addEvent w doc
      | None => raise w "TypeError"%string
      end
  | FetchContactsJob =>
      set_ui w (mkUi (date (ui w)) (isOpen (ui w)) (isOpenEdit (ui w)) (editDoc (ui w))
                  (labelled Contact.name (getContactsByOrg (store w) org_id)) (deals (ui w))
                  (tasks (ui w)))
  | FetchDealsJob =>
      set_ui w (mkUi (date (ui w)) (isOpen (ui w)) (isOpenEdit (ui w)) (editDoc (ui w))
                  (contacts (ui w)) (labelled Deal.name (getDealsByOrg (store w) org_id))
                  (tasks (ui w)))
  | FetchTasksJob =>
      set_ui w (mkUi (date (ui w)) (isOpen (ui w)) (isOpenEdit (ui w)) (editDoc (ui w))
                  (contacts (ui w)) (deals (ui w))
                  (labelled Task.name (getTasksByOrg (store w) org_id)))
  end.

(** A user gesture, or the completion of any pending call. *)
Inductive step : World -> World -> Prop :=
  | step_gesture w g : step w (handle w g)
  | step_job w pre j post :
      jobs w = pre ++ j :: post -> step w (run_job (set_jobs w (pre ++ post)) j).

(** Only completions: the world evolves without user input. *)
Inductive job_step : World -> World -> Prop :=
  | job_step_intro w pre j post :
      jobs w = pre ++ j :: post -> job_step w (run_job (set_jobs w (pre ++ post)) j).

(** Complete pending calls in the order they were issued. *)
Fixpoint settle (fuel : nat) (w : World) : World :=
  match fuel with
  | O => w
  | S fuel' =>
      match jobs w with
      | [] => w
      | j :: js => settle fuel' (run_job (set_jobs w js) j)
      end
  end.

(** ** The projection the widget should show *)

Definition projection (s : St) : list Event.t :=
  omap (fun d => addEvent_input d (getContact s (Interaction.contact d)))
    (List.filter (fun d => truthy (Interaction.remindMe d)) (getInteractionsByOrg s org_id)).

Definition consistent (w : World) : Prop := events w ≡ₚ projection (store w).

#[global] Instance consistent_dec `{!EqDecision Event.t} w : Decision (consistent w).
Proof. unfold consistent. apply _. Defined.
End Controller.

Arguments World St : clear implicits.
