(* ===== verification/CalendarProofs.v ===== *)
(** * Theorems on the calendar controller

    The core invariant of the spec (section 3): the widget's events are a
    permutation of the projection of the interactions of the organisation
    whose [remindMe] flag is set ([consistent]).  The proofs use only the
    store laws of [Store]; the witnesses run on [FireStore].  The first
    section holds the lemmas on the listing of displayed documents
    ([remdocs]) that every handler's proof shares. *)

From S2P Require Import Prelude JsRuntime Store Calendar.

Section StoreFacts.
Context {St : Type} `{!InteractionStore St} `{!InteractionStoreLaws St}.
Variable org_id : string.

(** The documents the projection shows, and the projection of one. *)
Definition remdocs (s : St) : list Interaction.t :=
  List.filter (fun d => truthy (Interaction.remindMe d)) (getInteractionsByOrg s org_id).

Definition proj (s : St) (d : Interaction.t) : option Event.t :=
  addEvent_input d (getContact s (Interaction.contact d)).

Lemma projection_remdocs s : projection org_id s = omap (proj s) (remdocs s).
Proof. done. Qed.

Lemma remdocs_elem s d :
  d ∈ remdocs s <->
  getInteraction s (Interaction.id d) = Some d /\ Interaction.org d = org_id /\
  Interaction.remindMe d = true.
Proof. unfold remdocs. rewrite elem_of_filter_bool, by_org_elem. naive_solver. Qed.

Lemma remdocs_NoDup s : NoDup (remdocs s).
Proof. apply NoDup_filter_bool, by_org_NoDup. Qed.

(** Two displayed documents with the same id are the same document. *)
Lemma remdocs_id_inj s d1 d2 :
  d1 ∈ remdocs s -> d2 ∈ remdocs s -> Interaction.id d1 = Interaction.id d2 -> d1 = d2.
Proof. rewrite !remdocs_elem. intros (H1 & _) (H2 & _) Heq. congruence. Qed.

Lemma remdocs_ids_NoDup s : NoDup (Interaction.id <$> remdocs s).
Proof.
  pose proof (remdocs_NoDup s) as Hnd. pose proof (remdocs_id_inj s) as Hinj.
  induction (remdocs s) as [| d l IH]; csimpl; [constructor |].
  apply NoDup_cons in Hnd as [Hd Hnd]. constructor.
  - intros (d' & Hid & Hin)%list_elem_of_fmap.
    assert (d = d') as <- by (apply Hinj; set_solver). done.
  - apply IH; [done |]. intros; apply Hinj; set_solver.
Qed.

Lemma addEvent_input_id d c ev : addEvent_input d c = Some ev -> Event.id ev = Interaction.id d.
Proof. unfold addEvent_input. destruct (event_title d c); simpl; [by intros [= <-] | done]. Qed.

Lemma projection_elem s ev :
  ev ∈ projection org_id s <-> exists d, d ∈ remdocs s /\ proj s d = Some ev.
Proof. rewrite projection_remdocs, list_elem_of_omap. done. Qed.

Lemma projection_ids_NoDup s : NoDup (Event.id <$> projection org_id s).
Proof.
  rewrite projection_remdocs. eapply NoDup_map_omap; [| apply remdocs_ids_NoDup].
  intros d ev. apply addEvent_input_id.
Qed.

(** A displayed document whose event cannot be built has no event in the
    projection. *)
Lemma projection_no_event s d :
  d ∈ remdocs s -> proj s d = None -> Interaction.id d ∉ Event.id <$> projection org_id s.
Proof.
  intros Hd Hp (ev & Hid & Hin)%list_elem_of_fmap.
  apply projection_elem in Hin as (d' & Hd' & Hp').
  rewrite (addEvent_input_id _ _ _ Hp') in Hid.
  rewrite (remdocs_id_inj s d d' Hd Hd' Hid) in Hp. congruence.
Qed.

(** The projection only reads the store through [getContact]. *)
Lemma projection_perm s s' l :
  (forall c, getContact s' c = getContact s c) -> remdocs s' ≡ₚ l ->
  projection org_id s' ≡ₚ omap (proj s) l.
Proof.
  intros Hc Hl. rewrite projection_remdocs, Hl.
  apply reflexive_eq, omap_ext_in. intros d _. unfold proj. by rewrite Hc.
Qed.

(** Creation of a displayed document adds it in front, up to order. *)
Lemma remdocs_create s a i s' :
  createNewInteraction s a = (i, s') -> NewInteraction.orgID a = org_id ->
  NewInteraction.remindMe a = true ->
  remdocs s' ≡ₚ NewInteraction.to_doc i a :: remdocs s.
Proof.
  intros Hc Ho Hr. apply perm_of_same_elems.
  - apply remdocs_NoDup.
  - constructor; [| apply remdocs_NoDup].
    rewrite remdocs_elem. simpl. rewrite (create_fresh _ _ _ _ Hc). naive_solver.
  - intros x. rewrite elem_of_cons, !remdocs_elem.
    destruct (decide (Interaction.id x = i)) as [-> | Hne].
    + rewrite (create_get _ _ _ _ Hc), (create_fresh _ _ _ _ Hc).
      split; [naive_solver |]. intros [-> | ?]; [naive_solver | naive_solver].
    + rewrite (create_get_ne _ _ _ _ _ Hc Hne).
      split; [naive_solver |]. intros [-> | ?]; [simpl in Hne; congruence | done].
Qed.

(** An update of a displayed document replaces it, or drops it when the
    update clears its flag; the other documents stay. *)
Lemma remdocs_update s i p d :
  getInteraction s i = Some d -> d ∈ remdocs s ->
  exists rest, remdocs s ≡ₚ d :: rest /\
    remdocs (updateInteraction s i p)
    ≡ₚ (if Interaction.remindMe (Patch.apply p d) then [Patch.apply p d] else []) ++ rest.
Proof.
  intros Hg Hd. pose proof (get_id _ _ _ Hg) as Hid.
  exists (List.filter (fun x => negb (String.eqb (Interaction.id x) i)) (remdocs s)).
  split; apply perm_of_same_elems.
  - apply remdocs_NoDup.
  - constructor; [| by apply NoDup_filter_bool, remdocs_NoDup].
    rewrite elem_of_filter_bool, Hid, String.eqb_refl. naive_solver.
  - intros x. rewrite elem_of_cons, elem_of_filter_bool, negb_true_iff, String.eqb_neq.
    split; [| naive_solver].
    intros Hx. destruct (decide (Interaction.id x = i)); [| naive_solver].
    left. apply (remdocs_id_inj s); naive_solver.
  - apply remdocs_NoDup.
  - apply NoDup_app. split_and!.
    + case_match; [apply NoDup_singleton | constructor].
    + intros x Hx. rewrite elem_of_filter_bool, negb_true_iff, String.eqb_neq.
      case_match; set_solver.
    + by apply NoDup_filter_bool, remdocs_NoDup.
  - intros x. rewrite elem_of_app, elem_of_filter_bool, negb_true_iff, String.eqb_neq.
    rewrite !remdocs_elem, update_get. apply remdocs_elem in Hd as (_ & Ho & _).
    case_decide as Hxi.
    + rewrite Hg. destruct (Interaction.remindMe (Patch.apply p d)) eqn:Hr; split.
      * intros (Heq & _ & _). injection Heq as <-. set_solver.
      * intros [->%list_elem_of_singleton | (_ & Hne)]; [| done].
        split_and!; [done | by rewrite <- Ho | done].
      * intros (Heq & _ & Hr'). injection Heq as <-. congruence.
      * intros [Hin | (_ & Hne)]; [set_solver | done].
    + split; [naive_solver |]. intros [Hin | ?]; [| naive_solver].
      destruct (Interaction.remindMe (Patch.apply p d)); [| set_solver].
      apply list_elem_of_singleton in Hin as ->. simpl in Hxi. congruence.
Qed.
End StoreFacts.

(** Permutation facts used to cancel the unchanged part of the widget. *)
Lemma perm_app_single_iff {A} (l k : list A) (x : A) (o : option A) :
  l ≡ₚ k -> (l ++ [x] ≡ₚ option_list o ++ k <-> o = Some x).
Proof.
  intros Hlk. rewrite Hlk, (Permutation_app_comm k).
  split; [| by intros ->].
  intros Hp%Permutation_app_inv_r. destruct o as [y |]; simpl in Hp.
  - apply Permutation_length_1 in Hp. by subst.
  - symmetry in Hp. by apply Permutation_nil_cons in Hp.
Qed.

Section Handlers.
Context {St : Type} `{!InteractionStore St} `{!InteractionStoreLaws St}.
Variables (user_id org_id : string).

Lemma remdocs_update_drop s i p d :
  getInteraction s i = Some d -> d ∈ remdocs org_id s ->
  Interaction.remindMe (Patch.apply p d) = false ->
  exists rest : list Interaction.t,
    remdocs org_id s ≡ₚ d :: rest /\ remdocs org_id (updateInteraction s i p) ≡ₚ rest.
Proof.
  intros Hg Hd Hr. destruct (remdocs_update org_id s i p d Hg Hd) as (rest & H1 & H2).
  rewrite Hr in H2. by exists rest.
Qed.

Lemma remdocs_update_keep s i p d :
  getInteraction s i = Some d -> d ∈ remdocs org_id s ->
  Interaction.remindMe (Patch.apply p d) = true ->
  exists rest : list Interaction.t, remdocs org_id s ≡ₚ d :: rest /\
    remdocs org_id (updateInteraction s i p) ≡ₚ Patch.apply p d :: rest.
Proof.
  intros Hg Hd Hr. destruct (remdocs_update org_id s i p d Hg Hd) as (rest & H1 & H2).
  rewrite Hr in H2. by exists rest.
Qed.

Lemma set_jobs_nil (w : World St) : jobs w = [] -> set_jobs w [] = w.
Proof. destruct w; simpl. by intros ->. Qed.

(** With nothing pending, settling one step runs the one continuation. *)
Lemma settle_single (w : World St) j :
  jobs w = [] -> settle org_id 1 (spawn w [j]) = run_job org_id w j.
Proof. destruct w; simpl. by intros ->. Qed.

Lemma settle_spawn (w : World St) j n :
  jobs w = [] -> settle org_id (S n) (spawn w [j]) = settle org_id n (run_job org_id w j).
Proof. destruct w; simpl. by intros ->. Qed.

Lemma run_AddEventJob (w : World St) d :
  let w' := run_job org_id w (AddEventJob d) in
  store w' = store w /\ jobs w' = jobs w /\
  events w' = events w ++ option_list (proj (store w) d).
Proof. cbv zeta. unfold run_job, proj. destruct (addEvent_input d _); simpl; by rewrite ?app_nil_r. Qed.

(** Moving a displayed event to the front of the widget's list. *)
Lemma insert_Permutation {A} (l : list A) k x y :
  l !! k = Some x -> <[k := y]> l ≡ₚ y :: delete k l.
Proof.
  intros Hk. pose proof (lookup_lt_Some _ _ _ Hk).
  rewrite insert_take_drop, delete_take_drop by done. symmetry. apply Permutation_middle.
Qed.

Lemma getEventById_Some evs i k :
  getEventById evs i = Some k -> exists ev, evs !! k = Some ev /\ Event.id ev = i.
Proof.
  revert k. induction evs as [| ev evs IH]; intros k; simpl; [done |].
  destruct (String.eqb_spec (Event.id ev) i) as [<- | _].
  - intros [= <-]. by exists ev.
  - destruct (getEventById evs i) as [k' |] eqn:Hk; simpl; [| done].
    intros [= <-]. by apply IH.
Qed.

(** The event of a displayed document is in the widget exactly once. *)
Lemma consistent_event_doc (w : World St) k ev :
  consistent org_id w -> events w !! k = Some ev ->
  exists d, d ∈ remdocs org_id (store w) /\ proj (store w) d = Some ev /\
    getInteraction (store w) (Event.id ev) = Some d.
Proof.
  intros Hc Hk. assert (ev ∈ projection org_id (store w)) as Hin.
  { rewrite <- Hc. by eapply list_elem_of_lookup_2. }
  apply projection_elem in Hin as (d & Hd & Hp). exists d. split_and!; [done | done |].
  rewrite (addEvent_input_id _ _ _ Hp). by apply remdocs_elem in Hd as [? _].
Qed.

(** The rest of the widget once the event of a displayed document is
    taken out is the projection of the other displayed documents. *)
Lemma consistent_rest (w : World St) k ev d rest :
  consistent org_id w -> events w !! k = Some ev -> proj (store w) d = Some ev ->
  remdocs org_id (store w) ≡ₚ d :: rest -> delete k (events w) ≡ₚ omap (proj (store w)) rest.
Proof.
  intros Hc Hk Hp Hr. apply (Permutation_cons_inv (a := ev)).
  rewrite <- (delete_Permutation _ _ _ Hk), Hc, projection_remdocs, Hr. simpl. by rewrite Hp.
Qed.

Lemma proj_contacts (s s' : St) d :
  (forall c, getContact s' c = getContact s c) -> proj s' d = proj s d.
Proof. intros Hc. unfold proj. by rewrite Hc. Qed.

(** An update that touches neither the name nor the contact keeps the
    event's title; its times and all-day flag follow the document. *)
Lemma proj_apply_same_title (s : St) p d ev :
  Patch.name p = None -> Patch.contact p = None -> proj s d = Some ev ->
  let d' := Patch.apply p d in
  proj s d' = Some (Event.mk (Event.id ev) (Event.title ev) (Interaction.meetingStart d')
                (Interaction.meetingEnd d')
                (match Interaction.meetingEnd d' with None => true | Some _ => false end)).
Proof.
  intros Hn Hc. unfold proj, addEvent_input, event_title. cbn zeta.
  replace (Interaction.contact (Patch.apply p d)) with (Interaction.contact d)
    by (simpl; by rewrite Hc).
  replace (Interaction.name (Patch.apply p d)) with (Interaction.name d)
    by (simpl; by rewrite Hn).
  destruct (if truthy (Interaction.name d) then _ else _); simpl; [by intros [= <-] | done].
Qed.

Lemma proj_apply_times (s : St) d ev st en :
  proj s d = Some ev ->
  proj s (Patch.apply (Patch.times st en) d)
  = Some (Event.mk (Event.id ev) (Event.title ev) st en
            (match en with None => true | Some _ => false end)).
Proof. intros Hp. by apply (proj_apply_same_title s (Patch.times st en) d ev). Qed.

(** The displayed event of a fresh document created by the calendar
    matches the one [createNewEventDate] shows exactly when the event is
    all-day or has an end time, and has a title. *)
Lemma create_event_matches (s : St) i title sd st et ad c dl tk ty n :
  let a := NewInteraction.mk org_id (c ?? ""%string) user_id (dl ?? ""%string)
             (at_time sd st) (ty ?? ""%string) (n ?? ""%string) (tk ?? ""%string) true title
             (match et with
              | Some e => if truthy e && negb ad then Some (at_time sd e) else None
              | None => None end) [user_id] in
  proj s (NewInteraction.to_doc i a)
    = Some (Event.mk i title (NewInteraction.meetingStart a) (NewInteraction.meetingEnd a) ad)
  <-> (ad = true \/ truthy et = true) /\ truthy title = true.
Proof.
  intros a. unfold proj, addEvent_input, event_title, a.
  simpl NewInteraction.to_doc. simpl Interaction.name. rewrite truthy_Some.
  destruct (truthy title) eqn:Ht.
  - destruct et as [e |]; rewrite ?truthy_Some; [destruct (truthy e) eqn:He |];
      destruct ad; cbn; naive_solver.
  - split; [| naive_solver]. apply truthy_string_false in Ht as ->. cbn.
    by destruct (getContact s _).
Qed.
(** A consistent widget less its [k]-th event is the projection of the
    store in which that event's document has [remindMe] cleared. *)
Lemma delete_projection (w : World St) k ev :
  consistent org_id w -> events w !! k = Some ev ->
  delete k (events w)
    ≡ₚ projection org_id (updateInteraction (store w) (Event.id ev) (Patch.remind false)).
Proof.
  intros Hc Hk. destruct (consistent_event_doc w k ev Hc Hk) as (d & Hd & Hp & Hg).
  destruct (remdocs_update_drop _ _ (Patch.remind false) _ Hg Hd) as (rest & Hr1 & Hr2);
    [done |].
  rewrite (projection_perm org_id (store w) _ rest (update_contact _ _ _) Hr2).
  by apply (consistent_rest w k ev d).
Qed.

(** A consistent widget whose [k]-th event is moved to [st]-[en] (all-day
    exactly when there is no end) is the projection of the store in which
    that event's document has the new times. *)
Lemma drag_projection (w : World St) k ev st en :
  consistent org_id w -> events w !! k = Some ev ->
  <[k := Event.mk (Event.id ev) (Event.title ev) st en
           (match en with None => true | Some _ => false end)]> (events w)
    ≡ₚ projection org_id (updateInteraction (store w) (Event.id ev) (Patch.times st en)).
Proof.
  intros Hc Hk. destruct (consistent_event_doc w k ev Hc Hk) as (d & Hd & Hp & Hg).
  destruct (remdocs_update_keep _ _ (Patch.times st en) _ Hg Hd) as (rest & Hr1 & Hr2).
  { by apply remdocs_elem in Hd as (_ & _ & ?). }
  rewrite (projection_perm org_id (store w) _ _ (update_contact _ _ _) Hr2),
    omap_cons_option_list, (proj_apply_times _ _ _ _ _ Hp).
  rewrite (insert_Permutation _ _ _ _ Hk). apply Permutation_skip.
  by apply (consistent_rest w k ev d).
Qed.
(** Appending the event of a created document to a consistent widget is
    consistent exactly when it is the event the document projects to. *)
Lemma create_projection (w : World St) a i s' ev :
  consistent org_id w -> createNewInteraction (store w) a = (i, s') ->
  NewInteraction.orgID a = org_id -> NewInteraction.remindMe a = true ->
  (events w ++ [ev] ≡ₚ projection org_id s' <-> proj (store w) (NewInteraction.to_doc i a) = Some ev).
Proof.
  intros Hc Hcr Ho Hr.
  rewrite (projection_perm org_id (store w) s' _ (fun c => create_contact _ _ _ _ c Hcr)
             (remdocs_create org_id _ _ _ _ Hcr Ho Hr)).
  rewrite omap_cons_option_list. by apply perm_app_single_iff.
Qed.

(** Replacing the [k]-th event of a consistent widget by the projection of
    its document after an update that keeps [remindMe] is consistent with
    the updated store. *)
Lemma edit_projection (w : World St) p k ev d0 :
  consistent org_id w -> events w !! k = Some ev ->
  getInteraction (store w) (Event.id ev) = Some d0 -> Patch.remindMe p <> Some false ->
  delete k (events w)
    ++ option_list (proj (updateInteraction (store w) (Event.id ev) p) (Patch.apply p d0))
  ≡ₚ projection org_id (updateInteraction (store w) (Event.id ev) p).
Proof.
  intros Hc Hk Hg Hp. destruct (consistent_event_doc w k ev Hc Hk) as (d & Hd & Hpd & Hg1).
  rewrite Hg in Hg1. injection Hg1 as <-.
  destruct (remdocs_update_keep _ _ p _ Hg Hd) as (rest & Hr1 & Hr2).
  { apply remdocs_elem in Hd as (_ & _ & Hr). simpl. rewrite Hr.
    by destruct (Patch.remindMe p) as [[] |]. }
  rewrite (projection_perm org_id (store w) _ _ (update_contact _ _ _) Hr2),
    omap_cons_option_list, (proj_contacts _ _ _ (update_contact _ _ _)).
  rewrite Permutation_app_comm. apply Permutation_app_head.
  by apply (consistent_rest w k ev d0).
Qed.
End Handlers.

Section HandlerTheorems.
Context {St : Type} `{!InteractionStore St} `{!InteractionStoreLaws St}.
Variables (user_id org_id : string).

(** C5: Deleting a displayed event (the delete button of
    [renderEventContent]) keeps the widget a faithful projection of the
    store once the update has completed. *)
Theorem deleteEvent_consistent (w : World St) k ev :
  consistent org_id w -> jobs w = [] -> events w !! k = Some ev ->
  consistent org_id (settle org_id 1 (deleteEvent w k)).
Proof.
  intros Hc Hj Hk. unfold deleteEvent. rewrite Hk, settle_single by done.
  unfold consistent; simpl. by apply delete_projection.
Qed.

(** C8: Delete is a soft delete: the document is kept, with its
    [remindMe] flag cleared and every other field unchanged. *)
Theorem deleteEvent_soft (w : World St) k ev d :
  jobs w = [] -> events w !! k = Some ev ->
  getInteraction (store w) (Event.id ev) = Some d ->
  getInteraction (store (settle org_id 1 (deleteEvent w k))) (Event.id ev)
  = Some (Interaction.mk (Interaction.id d) (Interaction.org d) (Interaction.contact d)
            (Interaction.owner d) (Interaction.deal d) (Interaction.meetingStart d)
            (Interaction.type d) (Interaction.notes d) (Interaction.task d) false
            (Interaction.name d) (Interaction.meetingEnd d) (Interaction.participants d)).
Proof.
  intros Hj Hk Hg. unfold deleteEvent. rewrite Hk, settle_single by done. simpl.
  rewrite update_get, decide_True, Hg by done. done.
Qed.
End HandlerTheorems.

Section HandlerTheorems2.
Context {St : Type} `{!InteractionStore St} `{!InteractionStoreLaws St}.
Variables (user_id org_id : string).

(** C4: Creating an event from the popup keeps the widget consistent with
    the store exactly when the event is all-day or has an end time, and
    has a title: otherwise the event shown ([allDay: isAllDay], [title])
    differs from the one the stored document projects to. *)
Theorem createNewEventDate_consistent_iff (w : World St) title sd st et ad c dl tk ty n :
  consistent org_id w -> jobs w = [] ->
  (consistent org_id
     (settle org_id 1 (createNewEventDate user_id org_id w title sd st et ad c dl tk ty n))
   <-> (ad = true \/ truthy et = true) /\ truthy title = true).
Proof.
  intros Hc Hj. unfold createNewEventDate. rewrite settle_single by done.
  cbn [run_job]. destruct (createNewInteraction (store w) _) as [i s'] eqn:Hcr.
  unfold consistent. cbn. rewrite (create_projection org_id w _ i s' _ Hc Hcr eq_refl eq_refl).
  apply create_event_matches.
Qed.

(** C6: Dragging or resizing a displayed event keeps the widget
    consistent with the store once the update has completed, when the
    widget's new all-day flag is the one a missing end implies. *)
Theorem dragEvent_consistent (w : World St) k ev st en ad :
  consistent org_id w -> jobs w = [] -> events w !! k = Some ev ->
  ad = match en with None => true | Some _ => false end ->
  consistent org_id (settle org_id 1 (dragEvent w k st en ad)).
Proof.
  intros Hc Hj Hk ->. unfold dragEvent, updateEvent. rewrite Hk, settle_single by done.
  unfold consistent. cbn. by apply drag_projection.
Qed.

(** C9: A drag sends only the new start and end: the stored document
    keeps every other field. *)
Theorem dragEvent_only_times (w : World St) k ev st en ad d :
  jobs w = [] -> events w !! k = Some ev ->
  getInteraction (store w) (Event.id ev) = Some d ->
  getInteraction (store (settle org_id 1 (dragEvent w k st en ad))) (Event.id ev)
  = Some (Interaction.mk (Interaction.id d) (Interaction.org d) (Interaction.contact d)
            (Interaction.owner d) (Interaction.deal d) st (Interaction.type d)
            (Interaction.notes d) (Interaction.task d) (Interaction.remindMe d)
            (Interaction.name d) en (Interaction.participants d)).
Proof.
  intros Hj Hk Hg. unfold dragEvent, updateEvent. rewrite Hk, settle_single by done.
  cbn. rewrite update_get, decide_True, Hg by done. done.
Qed.
End HandlerTheorems2.

Section EditTheorems.
Context {St : Type} `{!InteractionStore St} `{!InteractionStoreLaws St}.
Variable org_id : string.

(** The edit popup's save and [afterUpdate], run to completion: the event
    of the edited document is replaced by the projection of its new
    version. *)
Lemma editSubmit_events (w : World St) p d k d0 :
  jobs w = [] -> editDoc (ui w) = Some d ->
  getEventById (events w) (Interaction.id d) = Some k ->
  getInteraction (store w) (Interaction.id d) = Some d0 ->
  let w' := settle org_id 2 (editSubmit w p) in
  store w' = updateInteraction (store w) (Interaction.id d) p /\ jobs w' = [] /\
  events w' = delete k (events w) ++ option_list (proj (store w') (Patch.apply p d0)).
Proof.
  intros Hj He Hk Hg. unfold editSubmit. rewrite He. unfold afterUpdate.
  cbn [ui set_store editDoc events]. rewrite He, Hk.
  rewrite settle_spawn by done. cbn [run_job store set_jobs set_events set_store].
  rewrite update_get, decide_True, Hg by done. cbn [fmap option_fmap option_map].
  unfold addEvent. rewrite settle_single by done.
  destruct (run_AddEventJob org_id (set_events (set_store w (updateInteraction (store w)
    (Interaction.id d) p)) (delete k (events w))) (Patch.apply p d0)) as (-> & -> & ->).
  split_and!; [done | by simpl | done].
Qed.

(** C7: Saving the edit popup keeps the widget consistent with the store
    once the refresh has completed, unless the edit clears [remindMe]. *)
Theorem editSubmit_consistent (w : World St) p d :
  consistent org_id w -> jobs w = [] -> editDoc (ui w) = Some d ->
  is_Some (getEventById (events w) (Interaction.id d)) -> Patch.remindMe p <> Some false ->
  consistent org_id (settle org_id 2 (editSubmit w p)).
Proof.
  intros Hc Hj He [k Hk] Hp.
  destruct (getEventById_Some _ _ _ Hk) as (ev & Hev & Hid).
  destruct (consistent_event_doc org_id w k ev Hc Hev) as (d0 & _ & _ & Hg).
  rewrite Hid in Hg.
  destruct (editSubmit_events w p d k d0 Hj He Hk Hg) as (Hs & _ & Hevs).
  unfold consistent. rewrite Hevs, Hs, <- Hid.
  apply (edit_projection org_id w p k ev d0 Hc Hev); [by rewrite Hid | done].
Qed.

(** C17: An edit that clears [remindMe] leaves the widget inconsistent:
    [afterUpdate] adds the event back without checking the flag (when the
    edit keeps the title and the contact, so that the event can be
    built). *)
Theorem editSubmit_dismissed_inconsistent (w : World St) p d :
  consistent org_id w -> jobs w = [] -> editDoc (ui w) = Some d ->
  is_Some (getEventById (events w) (Interaction.id d)) -> Patch.remindMe p = Some false ->
  Patch.name p = None -> Patch.contact p = None ->
  ~ consistent org_id (settle org_id 2 (editSubmit w p)).
Proof.
  intros Hc Hj He [k Hk] Hp Hn Hct.
  destruct (getEventById_Some _ _ _ Hk) as (ev & Hev & Hid).
  destruct (consistent_event_doc org_id w k ev Hc Hev) as (d0 & Hd & Hpd & Hg).
  rewrite Hid in Hg.
  destruct (editSubmit_events w p d k d0 Hj He Hk Hg) as (Hs & _ & Hevs).
  destruct (remdocs_update_drop org_id _ _ p _ Hg Hd) as (rest & Hr1 & Hr2).
  { simpl. by rewrite Hp. }
  assert (exists ev', proj (store w) (Patch.apply p d0) = Some ev') as [ev' Hev']
    by (eexists; exact (proj_apply_same_title _ p d0 ev Hn Hct Hpd)).
  unfold consistent. rewrite Hevs, Hs, (proj_contacts _ _ _ (update_contact _ _ _)), Hev'.
  intros Hperm. assert (Event.id ev' ∈ Event.id <$> projection org_id
                          (updateInteraction (store w) (Interaction.id d) p)) as Hin.
  { rewrite <- Hperm. set_solver. }
  apply list_elem_of_fmap in Hin as (ev'' & Hid'' & Hin).
  apply projection_elem in Hin as (d1 & Hd1 & Hp1).
  apply remdocs_elem in Hd1 as (Hg1 & _ & Hr).
  rewrite (addEvent_input_id _ _ _ Hev'), (addEvent_input_id _ _ _ Hp1) in Hid''.
  simpl in Hid''. rewrite <- Hid'', (get_id _ _ _ Hg) in Hg1.
  rewrite update_get, decide_True, Hg in Hg1 by done. injection Hg1 as <-.
  simpl in Hr. by rewrite Hp in Hr.
Qed.
End EditTheorems.
