(* ===== verification/CalendarLoad.v ===== *)
(** * The initial load and the completion of pending calls

    The mount effect clears the widget and starts [loadEvents], which
    starts one [addEvent] per displayed document; each waits for its own
    contact lookup, so the events arrive in any order.  The invariant
    [load_inv] (events shown plus events still pending form the projection)
    holds along every interleaving ([job_step]), so every completion order
    ends in a consistent widget; completing in issue order ([settle]) shows
    exactly the projection, in the store's order; the three autocomplete
    fetches fill their lists whatever the order. *)

From S2P Require Import Prelude JsRuntime Store Calendar CalendarProofs.

(** The continuations of the mount effect: the three autocomplete fetches
    and the load. *)
Definition is_fetch (j : Job) : bool :=
  match j with FetchContactsJob | FetchDealsJob | FetchTasksJob => true | _ => false end.
Definition is_load (j : Job) : bool := match j with LoadEventsJob => true | _ => false end.

Section Load.
Context {St : Type} `{!InteractionStore St} `{!InteractionStoreLaws St}.
Variable org_id : string.

(** The events the pending [addEvent] continuations will show. *)
Definition pending_events (s : St) (js : list Job) : list Event.t :=
  omap (fun j => match j with AddEventJob d => proj s d | _ => None end) js.

(** Before the load has run: fetches and the one pending load. *)
Definition loading (js : list Job) : Prop :=
  Forall (fun j => is_load j = true \/ is_fetch j = true) js /\
  length (List.filter is_load js) = 1.

(** After it: fetches and [addEvent] continuations. *)
Definition only_adds (js : list Job) : Prop :=
  Forall (fun j => is_fetch j = true \/ exists d, j = AddEventJob d) js.

Definition load_inv (s : St) (w : World St) : Prop :=
  store w = s /\
  ((loading (jobs w) /\ events w = []) \/
   (only_adds (jobs w) /\ events w ++ pending_events s (jobs w) ≡ₚ projection org_id s)).

Lemma pending_events_app s js1 js2 :
  pending_events s (js1 ++ js2) = pending_events s js1 ++ pending_events s js2.
Proof. apply omap_app. Qed.

Lemma pending_events_adds s ds : pending_events s (AddEventJob <$> ds) = omap (proj s) ds.
Proof.
  induction ds as [| d ds IH]; [done |].
  rewrite fmap_cons. unfold pending_events in *. rewrite !omap_cons_option_list, IH. done.
Qed.

Lemma pending_events_fetches s js :
  Forall (fun j => is_fetch j = true) js -> pending_events s js = [].
Proof. induction 1 as [| j js Hj _ IH]; [done |]. by destruct j. Qed.

(** With no load left, the fetch-or-load continuations are fetches. *)
Lemma loading_fetches (js : list Job) :
  Forall (fun j => is_load j = true \/ is_fetch j = true) js -> List.filter is_load js = [] ->
  Forall (fun j => is_fetch j = true) js.
Proof.
  induction 1 as [| j js Hj _ IH]; simpl; [done |].
  destruct (is_load j) eqn:Hl; [done |]. intros Hf. constructor; [naive_solver | by apply IH].
Qed.

Lemma run_LoadEventsJob (w : World St) :
  let w' := run_job org_id w LoadEventsJob in
  store w' = store w /\ events w' = events w /\
  jobs w' = jobs w ++ (AddEventJob <$> remdocs org_id (store w)).
Proof. done. Qed.

(** A fetch only sets an autocomplete list. *)
Lemma run_fetch (w : World St) j :
  is_fetch j = true ->
  store (run_job org_id w j) = store w /\ events (run_job org_id w j) = events w /\
  jobs (run_job org_id w j) = jobs w.
Proof. by destruct j. Qed.

(** Right after the mount: the three fetches and the load pending, the
    widget cleared. *)
Lemma mount_loading (w : World St) :
  jobs w = [] -> loading (jobs (mount w)) /\ events (mount w) = [].
Proof. intros Hj. simpl. rewrite Hj. split; [| done]. split; [repeat constructor; by right | done]. Qed.

Lemma load_inv_mount (w : World St) : jobs w = [] -> load_inv (store w) (mount w).
Proof. intros Hj. split; [done |]. left. by apply mount_loading. Qed.

(** A completion before the load has run keeps the fetch-or-load shape,
    or runs the load and shows nothing yet while the new [addEvent]
    continuations are exactly the projection. *)
Lemma job_step_loading s (w w' : World St) :
  store w = s -> job_step org_id w w' -> loading (jobs w) -> events w = [] ->
  store w' = s /\
  ((loading (jobs w') /\ events w' = []) \/
   (only_adds (jobs w') /\ events w' ++ pending_events s (jobs w') ≡ₚ projection org_id s)).
Proof.
  intros Hs Hstep [Hfl Hc] He. inversion Hstep as [? pre j post Hj]; subst.
  rewrite Hj in Hfl, Hc. apply Forall_app in Hfl as [Hpre Hjp].
  apply Forall_cons in Hjp as [Hjl Hpost].
  rewrite List.filter_app, length_app in Hc. simpl in Hc.
  destruct (is_fetch j) eqn:Hf.
  { destruct (run_fetch (set_jobs w (pre ++ post)) j Hf) as (Hs' & He' & Hj').
    split; [done |]. left. rewrite He', Hj'. cbn [set_jobs jobs events].
    split; [| done]. split; [by apply Forall_app |].
    rewrite List.filter_app, length_app. destruct j; try discriminate; simpl in Hc; lia. }
  assert (j = LoadEventsJob) as -> by (destruct j; naive_solver). simpl in Hc.
  assert (Hfp : Forall (fun j => is_fetch j = true) (pre ++ post)).
  { apply Forall_app. split; apply loading_fetches; try done; apply nil_length_inv; lia. }
  destruct (run_LoadEventsJob (set_jobs w (pre ++ post))) as (Hs' & He' & Hj').
  split; [done |]. right. rewrite Hj', He'. cbn [set_jobs jobs events store].
  rewrite He. split.
  - apply Forall_app. split; [by eapply Forall_impl; [apply Hfp | naive_solver] |].
    apply Forall_fmap, Forall_forall. intros d _. right. by exists d.
  - rewrite pending_events_app, pending_events_adds, pending_events_fetches by done. done.
Qed.

(** After the load, a completion runs a fetch or one [addEvent]: what is
    shown plus what is pending stays the same up to order. *)
Lemma job_step_adds s (w w' : World St) :
  store w = s -> job_step org_id w w' -> only_adds (jobs w) ->
  store w' = s /\ only_adds (jobs w') /\
  events w' ++ pending_events s (jobs w') ≡ₚ events w ++ pending_events s (jobs w).
Proof.
  intros Hs Hstep Ha. inversion Hstep as [? pre j post Hj]; subst. rewrite Hj in Ha |- *.
  apply Forall_app in Ha as [Hpre Hjp]. apply Forall_cons in Hjp as [Hjk Hpost].
  rewrite !pending_events_app.
  destruct (is_fetch j) eqn:Hf.
  { destruct (run_fetch (set_jobs w (pre ++ post)) j Hf) as (Hs' & He' & Hj').
    rewrite Hs', He', Hj'. cbn [set_jobs jobs events store].
    split_and!; [done | by apply Forall_app |]. rewrite !pending_events_app. by destruct j. }
  destruct Hjk as [? | [d ->]]; [congruence |].
  destruct (run_AddEventJob org_id (set_jobs w (pre ++ post)) d) as (Hs' & Hj' & He').
  rewrite Hs', Hj', He'. cbn [set_jobs jobs events store].
  split_and!; [done | by apply Forall_app |]. rewrite !pending_events_app, <- app_assoc. simpl.
  destruct (proj (store w) d); simpl; solve_Permutation.
Qed.

Lemma load_inv_step s (w w' : World St) : load_inv s w -> job_step org_id w w' -> load_inv s w'.
Proof.
  intros [Hs [[Hl He] | [Ha Hp]]] Hstep.
  - destruct (job_step_loading s w w' Hs Hstep Hl He) as [Hs' H]. by split.
  - destruct (job_step_adds s w w' Hs Hstep Ha) as (Hs' & Ha' & Hp'). split; [done |].
    right. split; [done |]. by rewrite Hp'.
Qed.

Lemma load_inv_rtc s (w w' : World St) :
  load_inv s w -> rtc (job_step org_id) w w' -> load_inv s w'.
Proof. intros H Hr. induction Hr; eauto using load_inv_step. Qed.

(** Once nothing is pending, the load has run. *)
Lemma load_inv_done s (w : World St) :
  load_inv s w -> jobs w = [] -> store w = s /\ events w ≡ₚ projection org_id s.
Proof.
  intros [Hs [[[_ Hc] _] | [_ Hp]]] Hj; rewrite Hj in *; [done |].
  split; [done |]. by rewrite <- Hp, app_nil_r.
Qed.

(** C1: Whatever order the remote calls of the initial load complete in,
    once none is pending the widget shows exactly the projection of the
    displayed interactions of the organisation, each once. *)
Theorem load_consistent_any_order (w w' : World St) :
  jobs w = [] -> rtc (job_step org_id) (mount w) w' -> jobs w' = [] -> consistent org_id w'.
Proof.
  intros Hj Hr Hj'.
  destruct (load_inv_done _ _ (load_inv_rtc _ _ _ (load_inv_mount w Hj) Hr) Hj') as [Hs Hp].
  unfold consistent. by rewrite Hs.
Qed.

(** C26: The spec asks for one event per displayed interaction, but a
    displayed interaction with no name whose contact is not found never
    gets one: [addEvent] raises on [contact.name], whatever order the
    load's calls complete in. *)
Theorem load_drops_unprojectable (w w' : World St) d :
  jobs w = [] -> rtc (job_step org_id) (mount w) w' -> jobs w' = [] ->
  d ∈ remdocs org_id (store w) -> truthy (Interaction.name d) = false ->
  getContact (store w) (Interaction.contact d) = None ->
  Interaction.id d ∉ Event.id <$> events w'.
Proof.
  intros Hj Hr Hj' Hd Hn Hc Hin.
  assert (Hp : proj (store w) d = None)
    by (unfold proj, addEvent_input, event_title; by rewrite Hn, Hc).
  destruct (load_inv_done _ _ (load_inv_rtc _ _ _ (load_inv_mount w Hj) Hr) Hj') as [_ Hperm].
  rewrite Hperm in Hin.
  exact (projection_no_event org_id _ d Hd Hp Hin).
Qed.

(** [settle] follows some interleaving. *)
Lemma settle_rtc n (w : World St) : rtc (job_step org_id) w (settle org_id n w).
Proof.
  revert w. induction n as [| n IH]; intros w; simpl; [done |].
  destruct (jobs w) as [| j js] eqn:Hj; [done |].
  eapply rtc_l; [by apply (job_step_intro org_id w [] j js) | apply IH].
Qed.

Lemma settle_cons n (w : World St) j js :
  jobs w = j :: js -> settle org_id (S n) w = settle org_id n (run_job org_id (set_jobs w js) j).
Proof. intros Hj. simpl. by rewrite Hj. Qed.

(** Running a fetch first leaves the store and the events as they were. *)
Lemma settle_fetch n (w : World St) j js :
  jobs w = j :: js -> is_fetch j = true ->
  exists w1, settle org_id (S n) w = settle org_id n w1 /\
    store w1 = store w /\ events w1 = events w /\ jobs w1 = js.
Proof.
  intros Hj Hf. exists (run_job org_id (set_jobs w js) j).
  split; [by apply settle_cons |]. apply (run_fetch (set_jobs w js) j Hf).
Qed.

Lemma settle_adds s ds (w : World St) :
  store w = s -> jobs w = AddEventJob <$> ds ->
  store (settle org_id (length ds) w) = s /\ jobs (settle org_id (length ds) w) = [] /\
  events (settle org_id (length ds) w) = events w ++ omap (proj s) ds.
Proof.
  revert w. induction ds as [| d ds IH]; intros w Hs Hj; [simpl; by rewrite app_nil_r |].
  rewrite fmap_cons in Hj. cbn [length]. rewrite (settle_cons _ _ _ _ Hj).
  destruct (run_AddEventJob org_id (set_jobs w (AddEventJob <$> ds)) d) as (Hs' & Hj' & He').
  destruct (IH _ (eq_trans Hs' Hs) Hj') as (-> & -> & ->). split_and!; [done | done |].
  rewrite He', omap_cons_option_list, <- app_assoc. simpl. by rewrite Hs.
Qed.

(** The mount effect run in issue order: the three fetches, the load and
    one [addEvent] per displayed document. *)
Lemma settle_mount (w : World St) :
  jobs w = [] ->
  let w' := settle org_id (4 + length (remdocs org_id (store w))) (mount w) in
  store w' = store w /\ jobs w' = [] /\ events w' = projection org_id (store w).
Proof.
  intros Hj. cbv zeta. set (n := length (remdocs org_id (store w))).
  change (4 + n) with (S (S (S (S n)))).
  destruct (settle_fetch (S (S (S n))) (mount w) FetchContactsJob
    [FetchDealsJob; FetchTasksJob; LoadEventsJob]) as (w1 & -> & Hs1 & He1 & Hj1);
    [simpl; by rewrite Hj | done |].
  destruct (settle_fetch (S (S n)) w1 FetchDealsJob _ Hj1 eq_refl) as (w2 & -> & Hs2 & He2 & Hj2).
  destruct (settle_fetch (S n) w2 FetchTasksJob _ Hj2 eq_refl) as (w3 & -> & Hs3 & He3 & Hj3).
  rewrite (settle_cons _ w3 LoadEventsJob [] Hj3). unfold n.
  assert (Hs : store w3 = store w) by (rewrite Hs3, Hs2, Hs1; done).
  destruct (settle_adds (store w) (remdocs org_id (store w))
    (run_job org_id (set_jobs w3 []) LoadEventsJob)) as (-> & -> & ->);
    [simpl; by rewrite Hs | simpl; by rewrite Hs |].
  split_and!; [done | done |]. simpl. by rewrite He3, He2, He1.
Qed.

(** C14: Completing the calls of the initial load in the order they were
    issued shows the projection exactly, in the order of the store's
    listing. *)
Theorem load_in_order (w : World St) :
  jobs w = [] ->
  events (settle org_id (4 + length (remdocs org_id (store w))) (mount w))
  = projection org_id (store w).
Proof. intros Hj. apply (settle_mount w Hj). Qed.
End Load.

(** ** The autocomplete lists

    The three fetches of the mount effect complete in any order relative
    to each other and to the load; each sets its own list of the React
    state and no other continuation touches the lists. *)
Section Autocomplete.
Context {St : Type} `{!InteractionStore St} `{!InteractionStoreLaws St}.
Variable org_id : string.

(** The list the fetch [f] fills holds the labelled listing of [s]. *)
Definition fetched (s : St) (f : Job) (u : Ui) : Prop :=
  match f with
  | FetchContactsJob => contacts u = labelled Contact.name (getContactsByOrg s org_id)
  | FetchDealsJob => deals u = labelled Deal.name (getDealsByOrg s org_id)
  | FetchTasksJob => tasks u = labelled Task.name (getTasksByOrg s org_id)
  | _ => True
  end.

(** Every fetch is still pending or has filled its list. *)
Definition fetch_inv (s : St) (w : World St) : Prop :=
  load_inv org_id s w /\ forall f, is_fetch f = true -> f ∈ jobs w \/ fetched s f (ui w).

(** A continuation other than [f] leaves the list of [f] alone; [f]
    itself fills it from the store of the moment. *)
Lemma run_job_fetched s (w : World St) j f :
  j <> f -> fetched s f (ui (run_job org_id w j)) <-> fetched s f (ui w).
Proof.
  intros Hne. destruct j, f; cbn [run_job]; try congruence; repeat case_match; done.
Qed.

Lemma run_job_fetches (w : World St) f :
  is_fetch f = true -> fetched (store w) f (ui (run_job org_id w f)).
Proof. by destruct f. Qed.

(** Completions never drop another pending continuation. *)
Lemma run_job_keeps_jobs (w : World St) j x : x ∈ jobs w -> x ∈ jobs (run_job org_id w j).
Proof.
  intros Hx. destruct j; cbn [run_job]; repeat case_match; simpl; rewrite ?elem_of_app; auto.
Qed.

Lemma fetch_inv_mount (w : World St) : jobs w = [] -> fetch_inv (store w) (mount w).
Proof.
  intros Hj. split; [by apply load_inv_mount |]. intros f Hf. left.
  simpl. rewrite Hj. destruct f; try discriminate; set_solver.
Qed.

Lemma fetch_inv_step s (w w' : World St) : fetch_inv s w -> job_step org_id w w' -> fetch_inv s w'.
Proof.
  intros [Hl Hf] Hstep. split; [by apply (load_inv_step org_id s w) |].
  inversion Hstep as [? pre j post Hj]; subst. intros f Hff.
  destruct (decide (j = f)) as [-> | Hne].
  - right. destruct Hl as [Hs _]. rewrite <- Hs. exact (run_job_fetches (set_jobs w _) f Hff).
  - rewrite run_job_fetched by done. destruct (Hf f Hff) as [Hin | Hdone]; [| by right].
    rewrite Hj, elem_of_app, elem_of_cons in Hin. left. apply run_job_keeps_jobs. simpl.
    rewrite elem_of_app. naive_solver.
Qed.

Lemma fetch_inv_rtc s (w w' : World St) :
  fetch_inv s w -> rtc (job_step org_id) w w' -> fetch_inv s w'.
Proof. intros H Hr. induction Hr; eauto using fetch_inv_step. Qed.

(** C27: Whatever order the calls of the mount effect complete in, once
    none is pending the contacts, deals and tasks of the autocomplete are
    the organisation's listings, each entry labelled with its [name]. *)
Theorem autocomplete_any_order (w w' : World St) :
  jobs w = [] -> rtc (job_step org_id) (mount w) w' -> jobs w' = [] ->
  contacts (ui w') = labelled Contact.name (getContactsByOrg (store w) org_id) /\
  deals (ui w') = labelled Deal.name (getDealsByOrg (store w) org_id) /\
  tasks (ui w') = labelled Task.name (getTasksByOrg (store w) org_id).
Proof.
  intros Hj Hr Hj'. destruct (fetch_inv_rtc _ _ _ (fetch_inv_mount w Hj) Hr) as [_ Hf].
  rewrite Hj' in Hf.
  split_and!; [destruct (Hf FetchContactsJob) | destruct (Hf FetchDealsJob) |
    destruct (Hf FetchTasksJob)]; set_solver.
Qed.
End Autocomplete.
