(* ===== verification/CalendarTime.v ===== *)
(** * Creating an event: the start and end instants

    [createNewEventDate] turns the "HH:MM" strings of the creation popup
    into instants with [split(":")], [parseInt] and [setHours].  A time
    written by the popup's time input ([fmt_time], zero-padded or not past
    two digits) parses back to its hour and minute; a time of day lands on
    the chosen day; hours past 23 roll over into the following days; a
    string without a colon gives an invalid date, which is stored as is. *)

From S2P Require Import Prelude JsRuntime Store Calendar CalendarProofs.

Local Open Scope Z_scope.

(** The "HH:MM" text of a time of day. *)
Definition fmt_time (h m : N) : string := pad2 h +:+ String ":" (pad2 m).

(** The instant [h]:[m] on the day of the time value [t]. *)
Definition instant_at (t : Z) (h m : N) : Z :=
  Day t * msPerDay + Z.of_N h * msPerHour + Z.of_N m * msPerMinute.

Lemma pretty_N_char_not_colon d : negb (Ascii.eqb (pretty_N_char d) ":") = true.
Proof. unfold pretty_N_char. by repeat case_match. Qed.

Lemma pad2_no_colon n : all_chars (fun c => negb (Ascii.eqb c ":")) (pad2 n) = true.
Proof. apply all_chars_pad2, pretty_N_char_not_colon. Qed.

Lemma fmt_time_truthy h m : truthy (fmt_time h m) = true.
Proof. unfold fmt_time. by destruct (pad2 h). Qed.

Lemma parse_fmt_time h m : parse_time (fmt_time h m) = [Some (Z.of_N h); Some (Z.of_N m)].
Proof.
  unfold parse_time, fmt_time. rewrite str_split_app by apply pad2_no_colon.
  rewrite str_split_no_sep by apply pad2_no_colon. simpl. by rewrite !parseInt_pad2.
Qed.

(** C11: The time strings round trip through [split(":")] and [parseInt],
    so two times of day print to the same string only when they are the
    same time. *)
Theorem parse_time_roundtrip h m :
  parse_time (fmt_time h m) = [Some (Z.of_N h); Some (Z.of_N m)] /\
  forall h' m', fmt_time h m = fmt_time h' m' -> h = h' /\ m = m'.
Proof.
  split; [apply parse_fmt_time |]. intros h' m' Heq.
  pose proof (f_equal parse_time Heq) as Hp. rewrite !parse_fmt_time in Hp.
  simplify_eq. split; lia.
Qed.

Lemma new_Date_valid t : Z.abs t <= max_time -> new_Date (Some t) = Some t.
Proof. intros Ht. unfold new_Date, TimeClip, max_time in *. simpl. by rewrite (proj2 (Z.leb_le _ _) Ht). Qed.

Lemma at_time_fmt t h m :
  Z.abs t <= max_time ->
  at_time (Some t) (fmt_time h m)
  = setHours (Some t) (Some (Z.of_N h)) (Some (Z.of_N m)) (Some 0%Z) (Some 0%Z).
Proof. intros Ht. unfold at_time. by rewrite parse_fmt_time, new_Date_valid. Qed.

(** C12: A time of day 00:00-23:59 gives the instant at that offset from
    midnight of the chosen day, on that same day. *)
Theorem at_time_same_day t h m :
  (h < 24)%N -> (m < 60)%N -> Z.abs t + msPerDay <= max_time ->
  at_time (Some t) (fmt_time h m) = Some (instant_at t h m) /\ Day (instant_at t h m) = Day t.
Proof.
  intros Hh Hm Ht. rewrite at_time_fmt by (unfold msPerDay in Ht; lia).
  destruct (setHours_same_day t (Z.of_N h) (Z.of_N m)) as (r & Hr & Hday & ->); [lia | lia | done |].
  by rewrite Hr.
Qed.

(** C13: Hours past 23 are not rejected: [fmt_time h m] with any hour
    count [h] and a minute below 60 gives the instant [h] hours and [m]
    minutes after midnight of the chosen day, [h / 24] days later, as long
    as that instant is within the range of Date values. *)
Theorem at_time_rollover t h m :
  (m < 60)%N -> Z.abs t + (Z.of_N h `div` 24 + 1) * msPerDay <= max_time ->
  at_time (Some t) (fmt_time h m) = Some (instant_at t h m) /\
  Day (instant_at t h m) = Day t + Z.of_N h `div` 24.
Proof.
  intros Hm Ht. pose proof (Z.div_pos (Z.of_N h) 24 ltac:(lia) ltac:(lia)).
  assert (Hs := setHours_in_range t (Z.of_N h) (Z.of_N m) ltac:(lia) ltac:(lia) Ht).
  rewrite at_time_fmt by (unfold msPerDay in Ht; lia). split; [exact Hs |].
  apply (setHours_rollover t (Z.of_N h) (Z.of_N m)); [lia | lia | exact Hs].
Qed.

Section Create.
Context {St : Type} `{!InteractionStore St} `{!InteractionStoreLaws St}.
Variables (user_id org_id : string).

(** C10: Submitting the creation popup with a start and an end time and
    not all-day persists exactly one new interaction, flagged [remindMe],
    with the parsed instants, and appends its event to the widget. *)
Theorem createNewEventDate_timed (w : World St) title t h m h' m' c dl tk ty n :
  jobs w = [] -> Z.abs t <= max_time ->
  let w' := settle org_id 1 (createNewEventDate user_id org_id w title (Some t)
              (fmt_time h m) (Some (fmt_time h' m')) false c dl tk ty n) in
  let st := at_time (Some t) (fmt_time h m) in
  let en := at_time (Some t) (fmt_time h' m') in
  exists i, getInteraction (store w) i = None /\
    (forall j, j <> i -> getInteraction (store w') j = getInteraction (store w) j) /\
    getInteraction (store w') i
    = Some (Interaction.mk i org_id (c ?? ""%string) user_id (dl ?? ""%string) st
              (ty ?? ""%string) (n ?? ""%string) (tk ?? ""%string) true (Some title)
              (Some en) [user_id]) /\
    events w' = events w ++ [Event.mk i title st (Some en) false].
Proof.
  intros Hj Ht. cbv zeta. unfold createNewEventDate. rewrite settle_single by done.
  cbn [run_job]. destruct (createNewInteraction (store w) _) as [i s'] eqn:Hc.
  cbn [store events toast set_events set_store]. exists i. split_and!.
  - exact (create_fresh _ _ _ _ Hc).
  - intros j Hji. exact (create_get_ne _ _ _ _ _ Hc Hji).
  - rewrite (create_get _ _ _ _ Hc). simpl. by rewrite fmt_time_truthy.
  - simpl. by rewrite fmt_time_truthy.
Qed.

(** C18: A start time without a colon is not reported: the interaction
    is stored with an invalid start date and its event is shown. *)
Theorem createNewEventDate_malformed (w : World St) title sd st et ad c dl tk ty n :
  jobs w = [] -> all_chars (fun ch => negb (Ascii.eqb ch ":")) st = true ->
  let w' := settle org_id 1 (createNewEventDate user_id org_id w title sd st et ad c dl tk ty n) in
  errors w' = errors w /\
  exists i d, getInteraction (store w') i = Some d /\ Interaction.meetingStart d = NaN /\
    Event.mk i title NaN (Interaction.meetingEnd d) ad ∈ events w'.
Proof.
  intros Hj Hst. cbv zeta. unfold createNewEventDate. rewrite settle_single by done.
  assert (at_time sd st = NaN) as ->.
  { unfold at_time, parse_time. rewrite str_split_no_sep by done. simpl.
    unfold num_at. simpl. apply setHours_NaN_minute. }
  cbn [run_job]. destruct (createNewInteraction (store w) _) as [i s'] eqn:Hc.
  cbn [store events errors toast set_events set_store].
  split; [done |]. eexists i, _. split_and!; [exact (create_get _ _ _ _ Hc) | done |].
  simpl. set_solver.
Qed.
End Create.
