(* ===== verification/Examples.v ===== *)
(** * A concrete calendar session

    One organisation [o1] with one contact and three interactions (two
    displayed, one dismissed) in a [FireStore]; the session mounts the
    calendar and runs each gesture on it.  Each theorem of the calendar
    files with hypotheses is applied here at this session, with its
    hypotheses discharged by computation; and the session shows that the
    order of the widget's events after the initial load depends on the
    order in which the contact lookups complete. *)

From S2P Require Import Prelude JsRuntime Store Calendar CalendarProofs CalendarLoad CalendarTime.

Local Open Scope string_scope.

(** 2024-01-10T00:00Z *)
Definition jan10 : Z := 1704844800000.

Definition ann : Contact.t :=
  Contact.mk (Some "c1") "o1" "Ann" "ACME" "CEO" "ann@acme.test" "555-0100" "".

Definition call : Interaction.t :=
  Interaction.mk "i1" "o1" "c1" "u1" "" (Some (jan10 + 9 * msPerHour)%Z) "call" "" "" true
    None (Some (Some (jan10 + 10 * msPerHour)%Z)) ["u1"].

Definition review : Interaction.t :=
  Interaction.mk "i2" "o1" "c1" "u1" "" (Some jan10) "meeting" "" "" true (Some "Review")
    None ["u1"].

Definition dismissed : Interaction.t :=
  Interaction.mk "i3" "o1" "c1" "u1" "" (Some jan10) "call" "" "" false (Some "Old") None ["u1"].

Definition store0 : FireStore :=
  {| fs_interactions := <["i1" := call]> (<["i2" := review]> (<["i3" := dismissed]> ∅));
     fs_contacts := <["c1" := ann]> ∅;
     fs_deals := [Deal.mk "d1" "o1" "Renewal"; Deal.mk "d2" "o2" "Elsewhere"];
     fs_tasks := [Task.mk "t1" "o1" "Send quote"] |}.

Definition world0 : World FireStore :=
  mkWorld store0 [] [] [] [] (mkUi None false false None [] [] []).

(** The session after the initial load, completed in issue order. *)
Definition loaded : World FireStore := settle "o1" 6 (mount world0).

(** The session after the edit button of the first event. *)
Definition editing : World FireStore := settle "o1" 1 (handle "u1" "o1" loaded (EditClick 0)).

Definition ev_call : Event.t :=
  Event.mk "i1" "Meeting with Ann" (Some (jan10 + 9 * msPerHour)%Z)
    (Some (Some (jan10 + 10 * msPerHour)%Z)) false.

Definition ev_review : Event.t := Event.mk "i2" "Review" (Some jan10) None true.

Lemma loaded_events : events loaded = [ev_call; ev_review].
Proof. vm_compute. reflexivity. Defined.

Lemma loaded_call : getInteraction (store loaded) "i1" = Some call.
Proof. vm_compute. reflexivity. Defined.

Lemma loaded_jobs : jobs loaded = [].
Proof. vm_compute. reflexivity. Defined.

Lemma loaded_consistent : consistent "o1" loaded.
Proof. apply (bool_decide_unpack _). vm_compute. reflexivity. Defined.

Lemma editing_jobs : jobs editing = [].
Proof. vm_compute. reflexivity. Defined.

Lemma editing_consistent : consistent "o1" editing.
Proof. apply (bool_decide_unpack _). vm_compute. reflexivity. Defined.

Lemma load_consistent_any_order_witness :
  jobs world0 = [] /\ rtc (job_step "o1") (mount world0) loaded /\ jobs loaded = [] /\
  consistent "o1" loaded.
Proof.
  assert (H1 : jobs world0 = []) by reflexivity.
  pose proof (settle_rtc "o1" 6 (mount world0)) as H2.
  exact (conj H1 (conj H2 (conj loaded_jobs
    (load_consistent_any_order "o1" world0 loaded H1 H2 loaded_jobs)))).
Defined.

Lemma createNewEventDate_consistent_iff_witness :
  consistent "o1" loaded /\ jobs loaded = [] /\
  (consistent "o1" (settle "o1" 1 (createNewEventDate "u1" "o1" loaded "Demo" (Some jan10)
     "09:00" (Some "") false None None None None None))
   <-> (false = true \/ truthy (Some "") = true) /\ truthy "Demo" = true).
Proof.
  exact (conj loaded_consistent (conj loaded_jobs
    (createNewEventDate_consistent_iff "u1" "o1" loaded "Demo" (Some jan10) "09:00" (Some "")
       false None None None None None loaded_consistent loaded_jobs))).
Defined.

Lemma deleteEvent_consistent_witness :
  consistent "o1" loaded /\ jobs loaded = [] /\ events loaded !! 0 = Some ev_call /\
  consistent "o1" (settle "o1" 1 (deleteEvent loaded 0)).
Proof.
  assert (Hk : events loaded !! 0 = Some ev_call) by (rewrite loaded_events; reflexivity).
  exact (conj loaded_consistent (conj loaded_jobs (conj Hk
    (deleteEvent_consistent "o1" loaded 0 ev_call loaded_consistent loaded_jobs Hk)))).
Defined.

Lemma dragEvent_consistent_witness :
  consistent "o1" loaded /\ jobs loaded = [] /\ events loaded !! 1 = Some ev_review /\
  consistent "o1" (settle "o1" 1 (dragEvent loaded 1 (Some (jan10 + msPerDay)%Z) None true)).
Proof.
  assert (Hk : events loaded !! 1 = Some ev_review) by (rewrite loaded_events; reflexivity).
  exact (conj loaded_consistent (conj loaded_jobs (conj Hk
    (dragEvent_consistent "o1" loaded 1 ev_review _ None true loaded_consistent loaded_jobs Hk
       eq_refl)))).
Defined.

Lemma editDoc_editing : editDoc (ui editing) = Some call.
Proof. vm_compute. reflexivity. Defined.

Lemma editing_event : is_Some (getEventById (events editing) (Interaction.id call)).
Proof. vm_compute. eexists. reflexivity. Defined.

Definition rename : Patch.t :=
  Patch.mk None None None None None None (Some "notes") (Some (Some "Kick-off")) None.

Lemma editSubmit_consistent_witness :
  consistent "o1" editing /\ jobs editing = [] /\ editDoc (ui editing) = Some call /\
  consistent "o1" (settle "o1" 2 (editSubmit editing rename)).
Proof.
  exact (conj editing_consistent (conj editing_jobs (conj editDoc_editing
    (editSubmit_consistent "o1" editing rename call editing_consistent editing_jobs
       editDoc_editing editing_event ltac:(discriminate))))).
Defined.

Lemma editSubmit_dismissed_inconsistent_witness :
  consistent "o1" editing /\ jobs editing = [] /\
  ~ consistent "o1" (settle "o1" 2 (editSubmit editing (Patch.remind false))).
Proof.
  exact (conj editing_consistent (conj editing_jobs
    (editSubmit_dismissed_inconsistent "o1" editing (Patch.remind false) call editing_consistent
       editing_jobs editDoc_editing editing_event eq_refl eq_refl eq_refl))).
Defined.

Lemma deleteEvent_soft_witness :
  jobs loaded = [] /\ events loaded !! 0 = Some ev_call /\
  getInteraction (store (settle "o1" 1 (deleteEvent loaded 0))) "i1"
  = Some (Interaction.mk "i1" "o1" "c1" "u1" "" (Some (jan10 + 9 * msPerHour)%Z) "call" "" ""
            false None (Some (Some (jan10 + 10 * msPerHour)%Z)) ["u1"]).
Proof.
  assert (Hk : events loaded !! 0 = Some ev_call) by (rewrite loaded_events; reflexivity).
  exact (conj loaded_jobs (conj Hk
    (deleteEvent_soft "o1" loaded 0 ev_call call loaded_jobs Hk loaded_call))).
Defined.

Lemma dragEvent_only_times_witness :
  jobs loaded = [] /\
  getInteraction (store (settle "o1" 1 (dragEvent loaded 0 (Some jan10) None true))) "i1"
  = Some (Interaction.mk "i1" "o1" "c1" "u1" "" (Some jan10) "call" "" "" true None None ["u1"]).
Proof.
  assert (Hk : events loaded !! 0 = Some ev_call) by (rewrite loaded_events; reflexivity).
  exact (conj loaded_jobs
    (dragEvent_only_times "o1" loaded 0 ev_call (Some jan10) None true call loaded_jobs Hk
       loaded_call)).
Defined.

(** The example of the spec: 2024-01-10, 09:00 to 10:00. *)
Lemma createNewEventDate_timed_witness :
  jobs loaded = [] /\ (Z.abs jan10 <= max_time)%Z /\
  exists i, getInteraction (store loaded) i = None /\
    events (settle "o1" 1 (createNewEventDate "u1" "o1" loaded "Demo" (Some jan10)
              (fmt_time 9 0) (Some (fmt_time 10 0)) false None None None None None))
    = (events loaded ++ [Event.mk i "Demo" (at_time (Some jan10) (fmt_time 9 0))
                           (Some (at_time (Some jan10) (fmt_time 10 0))) false])%list.
Proof.
  assert (Ht : (Z.abs jan10 <= max_time)%Z) by (vm_compute; discriminate).
  split; [exact loaded_jobs | split; [exact Ht |]].
  destruct (createNewEventDate_timed "u1" "o1" loaded "Demo" jan10 9 0 10 0 None None None None
              None loaded_jobs Ht) as (i & Hi & _ & _ & He).
  exists i. exact (conj Hi He).
Defined.

Lemma at_time_same_day_witness :
  (9 < 24)%N /\ (30 < 60)%N /\ (Z.abs jan10 + msPerDay <= max_time)%Z /\
  at_time (Some jan10) (fmt_time 9 30) = Some (instant_at jan10 9 30) /\
  Day (instant_at jan10 9 30) = Day jan10.
Proof.
  assert (H1 : (9 < 24)%N) by lia. assert (H2 : (30 < 60)%N) by lia.
  assert (H3 : (Z.abs jan10 + msPerDay <= max_time)%Z) by (vm_compute; discriminate).
  exact (conj H1 (conj H2 (conj H3 (at_time_same_day jan10 9 30 H1 H2 H3)))).
Defined.

Lemma at_time_rollover_witness :
  (15 < 60)%N /\ (Z.abs jan10 + (Z.of_N 25 `div` 24 + 1) * msPerDay <= max_time)%Z /\
  at_time (Some jan10) (fmt_time 25 15) = Some (jan10 + msPerDay + msPerHour + 15 * msPerMinute)%Z /\
  Day (instant_at jan10 25 15) = (Day jan10 + 1)%Z.
Proof.
  assert (H1 : (15 < 60)%N) by lia.
  assert (H2 : (Z.abs jan10 + (Z.of_N 25 `div` 24 + 1) * msPerDay <= max_time)%Z)
    by (vm_compute; discriminate).
  destruct (at_time_rollover jan10 25 15 H1 H2) as [Ha Hd].
  assert (He : instant_at jan10 25 15 = (jan10 + msPerDay + msPerHour + 15 * msPerMinute)%Z)
    by vm_decide.
  rewrite He in Ha. exact (conj H1 (conj H2 (conj Ha Hd))).
Defined.

Lemma createNewEventDate_malformed_witness :
  jobs loaded = [] /\ all_chars (fun ch => negb (Ascii.eqb ch ":")) "9" = true /\
  errors (settle "o1" 1 (createNewEventDate "u1" "o1" loaded "Demo" (Some jan10) "9"
            (Some "10:00") false None None None None None)) = errors loaded.
Proof.
  assert (H : all_chars (fun ch => negb (Ascii.eqb ch ":")) "9" = true) by reflexivity.
  exact (conj loaded_jobs (conj H (proj1 (createNewEventDate_malformed "u1" "o1" loaded "Demo"
    (Some jan10) "9" (Some "10:00") false None None None None None loaded_jobs H)))).
Defined.

Lemma load_in_order_witness :
  jobs world0 = [] /\
  events (settle "o1" (4 + length (remdocs "o1" (store world0))) (mount world0))
  = projection "o1" (store world0).
Proof.
  assert (H : jobs world0 = []) by reflexivity.
  exact (conj H (load_in_order "o1" world0 H)).
Defined.

(** A displayed interaction with no name whose contact [c9] is missing. *)
Definition orphan : Interaction.t :=
  Interaction.mk "i4" "o1" "c9" "u1" "" (Some jan10) "call" "" "" true None None ["u1"].

Definition world1 : World FireStore :=
  set_store world0 {| fs_interactions := <["i4" := orphan]> (fs_interactions store0);
                      fs_contacts := fs_contacts store0; fs_deals := fs_deals store0;
                      fs_tasks := fs_tasks store0 |}.

Definition loaded1 : World FireStore := settle "o1" 7 (mount world1).

Lemma load_drops_unprojectable_witness :
  jobs world1 = [] /\ rtc (job_step "o1") (mount world1) loaded1 /\ jobs loaded1 = [] /\
  orphan ∈ remdocs "o1" (store world1) /\ truthy (Interaction.name orphan) = false /\
  getContact (store world1) (Interaction.contact orphan) = None /\
  Interaction.id orphan ∉ Event.id <$> events loaded1.
Proof.
  assert (Hj : jobs world1 = []) by reflexivity.
  assert (Hj' : jobs loaded1 = []) by vm_decide.
  assert (Hd : orphan ∈ remdocs "o1" (store world1)) by vm_decide.
  assert (Hn : truthy (Interaction.name orphan) = false) by vm_decide.
  assert (Hc : getContact (store world1) (Interaction.contact orphan) = None) by vm_decide.
  pose proof (settle_rtc "o1" 7 (mount world1)) as Hr.
  exact (conj Hj (conj Hr (conj Hj' (conj Hd (conj Hn (conj Hc
    (load_drops_unprojectable "o1" world1 loaded1 orphan Hj Hr Hj' Hd Hn Hc))))))).
Defined.

(** C15: The initial load does not fix the order of the events: when the
    second contact lookup completes first, the widget lists the events in
    the other order than the store's listing (spec section 4.1 says the
    order is the fetch order; section 5 says completion order). *)
Theorem load_order_not_fixed :
  exists w', rtc (job_step "o1") (mount world0) w' /\ jobs w' = [] /\
    events w' ≡ₚ projection "o1" (store w') /\ events w' <> projection "o1" (store w').
Proof.
  set (w0 := settle "o1" 3 (mount world0)).
  set (w1 := run_job "o1" (set_jobs w0 []) LoadEventsJob).
  assert (Hj1 : jobs w1 = [AddEventJob call; AddEventJob review]) by (vm_compute; reflexivity).
  set (w2 := run_job "o1" (set_jobs w1 [AddEventJob call]) (AddEventJob review)).
  set (w3 := run_job "o1" (set_jobs w2 []) (AddEventJob call)).
  exists w3. split_and!.
  - eapply rtc_trans; [apply (settle_rtc "o1" 3 (mount world0)) |].
    eapply rtc_l; [apply (job_step_intro "o1" w0 [] LoadEventsJob []); vm_decide |].
    eapply rtc_l; [by apply (job_step_intro "o1" w1 [AddEventJob call] (AddEventJob review) []) |].
    eapply rtc_l; [| apply rtc_refl].
    apply (job_step_intro "o1" w2 [] (AddEventJob call) []). vm_compute. reflexivity.
  - vm_compute. reflexivity.
  - apply (bool_decide_unpack _). vm_compute. reflexivity.
  - vm_compute. discriminate.
Qed.

(** After the load the autocomplete offers Ann, the deal of [o1] and its
    task, each labelled with its name. *)
Lemma autocomplete_any_order_witness :
  jobs world0 = [] /\ rtc (job_step "o1") (mount world0) loaded /\ jobs loaded = [] /\
  contacts (ui loaded) = [(ann, "Ann")] /\
  deals (ui loaded) = [(Deal.mk "d1" "o1" "Renewal", "Renewal")] /\
  tasks (ui loaded) = [(Task.mk "t1" "o1" "Send quote", "Send quote")].
Proof.
  assert (H1 : jobs world0 = []) by reflexivity.
  pose proof (settle_rtc "o1" 6 (mount world0)) as H2.
  destruct (autocomplete_any_order "o1" world0 loaded H1 H2 loaded_jobs) as (Hc & Hd & Ht).
  split_and!; [exact H1 | exact H2 | exact loaded_jobs | rewrite Hc | rewrite Hd | rewrite Ht];
    vm_compute; reflexivity.
Defined.
