(* ===== verification/CalendarFailure.v ===== *)
(** * Remote calls that reject

    No [await] or [.then] of calendarComponent.js has a [catch]: when a
    remote call rejects (a network or backend failure), the code after it
    never runs and the rejection surfaces as an unhandled rejection
    ([reject_job]).  [fail_step] lets any pending call resolve or reject.
    Failures during the initial load only lose events: the widget shows a
    submultiset of the projection and never a wrong or duplicated event.
    The handlers that change the widget before their call (delete, drag)
    leave it apart from the store when the call rejects, as the spec's
    error taxonomy says; a create whose call rejects changes nothing but
    the error log. *)

From S2P Require Import Prelude JsRuntime Store Calendar CalendarProofs CalendarLoad Examples.

Section Failure.
Context {St : Type} `{!InteractionStore St} `{!InteractionStoreLaws St}.
Variables (user_id org_id : string).

(** The continuation [j] of a call that rejects is dropped, and the
    rejection is reported as unhandled. *)
Definition reject_job (w : World St) (j : Job) : World St := raise w "UnhandledRejection"%string.

(** Any pending call resolves or rejects. *)
Inductive fail_step : World St -> World St -> Prop :=
  | fail_resolve w w' : job_step org_id w w' -> fail_step w w'
  | fail_reject w pre j post :
      jobs w = pre ++ j :: post -> fail_step w (reject_job (set_jobs w (pre ++ post)) j).

(** The load invariant with losses: what is shown plus what is pending is
    a submultiset of the projection. *)
Definition lossy_inv (s : St) (w : World St) : Prop :=
  store w = s /\
  ((loading (jobs w) /\ events w = []) \/
   (only_adds (jobs w) /\ events w ++ pending_events s (jobs w) ⊆+ projection org_id s)).

Lemma lossy_inv_mount (w : World St) : jobs w = [] -> lossy_inv (store w) (mount w).
Proof. intros Hj. split; [done |]. left. by apply mount_loading. Qed.

Lemma lossy_inv_resolve s (w w' : World St) : lossy_inv s w -> job_step org_id w w' -> lossy_inv s w'.
Proof.
  intros [Hs [[Hl He] | [Ha Hp]]] Hstep.
  - destruct (job_step_loading org_id s w w' Hs Hstep Hl He) as [Hs' [H | [Ha' Hp']]];
      split; [done | by left | done |]. right. split; [done |]. by rewrite Hp'.
  - destruct (job_step_adds org_id s w w' Hs Hstep Ha) as (Hs' & Ha' & Hp').
    split; [done |]. right. split; [done |]. by rewrite Hp'.
Qed.

(** Dropping a pending continuation drops at most its event. *)
Lemma pending_events_drop s pre j post :
  pending_events s (pre ++ post) ⊆+ pending_events s (pre ++ j :: post).
Proof.
  rewrite !pending_events_app. apply submseteq_skips_l.
  change (j :: post) with ([j] ++ post). rewrite pending_events_app.
  apply submseteq_inserts_l. done.
Qed.

Lemma lossy_inv_reject s (w : World St) pre j post :
  lossy_inv s w -> jobs w = pre ++ j :: post -> lossy_inv s (reject_job (set_jobs w (pre ++ post)) j).
Proof.
  intros [Hs [[[Hfl Hc] He] | [Ha Hp]]] Hj; split; [done | | done |]; simpl; rewrite Hj in *.
  - apply Forall_app in Hfl as [Hpre Hjp]. apply Forall_cons in Hjp as [Hjl Hpost].
    rewrite List.filter_app, length_app in Hc. simpl in Hc.
    destruct (is_load j) eqn:Hl.
    + right. assert (Hfp : Forall (fun j => is_fetch j = true) (pre ++ post)).
      { apply Forall_app. split; apply loading_fetches; try done; apply nil_length_inv; simpl in Hc; lia. }
      split; [by eapply Forall_impl; [apply Hfp | naive_solver] |].
      rewrite He, pending_events_fetches by done. apply submseteq_nil_l.
    + left. split; [| done]. split; [by apply Forall_app |].
      rewrite List.filter_app, length_app. simpl in Hc. lia.
  - apply Forall_app in Ha as [Hpre Hjp]. apply Forall_cons in Hjp as [_ Hpost].
    right. split; [by apply Forall_app |]. etrans; [| exact Hp].
    apply submseteq_skips_l, pending_events_drop.
Qed.

Lemma lossy_inv_rtc s (w w' : World St) : lossy_inv s w -> rtc fail_step w w' -> lossy_inv s w'.
Proof.
  intros H Hr. induction Hr as [| w1 w2 w3 Hs _ IH]; [done |]. apply IH.
  destruct Hs; [by eapply lossy_inv_resolve | by eapply lossy_inv_reject].
Qed.

(** C29: Whatever calls of the mount effect reject, and in whatever order
    the others complete, the store is untouched and the widget shows a
    submultiset of the projection: failures lose events but never show a
    wrong or a duplicated one. *)
Theorem load_lossy (w w' : World St) :
  jobs w = [] -> rtc fail_step (mount w) w' ->
  store w' = store w /\ events w' ⊆+ projection org_id (store w).
Proof.
  intros Hj Hr. destruct (lossy_inv_rtc _ _ _ (lossy_inv_mount w Hj) Hr) as [Hs [[_ He] | [_ Hp]]].
  - split; [done |]. rewrite He. apply submseteq_nil_l.
  - split; [done |]. etrans; [| exact Hp]. apply submseteq_inserts_r. done.
Qed.

(** The call of a gesture that issued exactly one, rejected. *)
Lemma reject_single (w : World St) j :
  jobs w = [j] ->
  fail_step w (reject_job (set_jobs w []) j) /\
  store (reject_job (set_jobs w []) j) = store w /\ events (reject_job (set_jobs w []) j) = events w /\
  jobs (reject_job (set_jobs w []) j) = [] /\ toasts (reject_job (set_jobs w []) j) = toasts w /\
  errors (reject_job (set_jobs w []) j) = errors w ++ ["UnhandledRejection"%string].
Proof. intros Hj. split; [by apply (fail_reject w [] j []) | done]. Qed.

(** In a consistent widget two events with the same id are the same. *)
Lemma consistent_id_unique (w : World St) i k x y :
  consistent org_id w -> events w !! i = Some x -> events w !! k = Some y ->
  Event.id x = Event.id y -> i = k.
Proof.
  intros Hc Hx Hy Hid.
  assert (Hnd : NoDup (Event.id <$> events w)).
  { unfold consistent in Hc. rewrite Hc. apply projection_ids_NoDup. }
  apply (NoDup_lookup _ i k (Event.id x) Hnd); rewrite list_lookup_fmap; [by rewrite Hx |].
  by rewrite Hy, Hid.
Qed.

(** A widget that differs from a consistent one at a single event, by an
    event of the same id, is not consistent with the same store. *)
Lemma insert_inconsistent (w : World St) k ev ev' :
  consistent org_id w -> events w !! k = Some ev -> Event.id ev' = Event.id ev -> ev' <> ev ->
  ~ consistent org_id (set_events w (<[k := ev']> (events w))).
Proof.
  intros Hc Hk Hid Hne Hc'. unfold consistent in Hc, Hc'. simpl in Hc'.
  assert (Hin : ev' ∈ events w).
  { rewrite Hc, <- Hc'. apply list_elem_of_lookup_2 with k.
    apply list_lookup_insert_eq. by eapply lookup_lt_Some. }
  apply list_elem_of_lookup_1 in Hin as [i Hi].
  assert (i = k) as -> by (apply (consistent_id_unique w i k ev' ev); done).
  congruence.
Qed.

(** C30: The optimistic gestures diverge when their call rejects: on a
    consistent widget with nothing pending, a drag of the [k]-th event to
    other times, or its delete, changes the widget at once; when the one
    [updateInteraction] it issues rejects, the store is unchanged, nothing
    is pending, an unhandled rejection is reported, and the widget is not
    the projection of the store any more. *)
Theorem edit_rejected_diverges (w : World St) k ev :
  consistent org_id w -> jobs w = [] -> events w !! k = Some ev ->
  (forall st en ad, Event.mk (Event.id ev) (Event.title ev) st en ad <> ev ->
     exists j w', jobs (dragEvent w k st en ad) = [j] /\ fail_step (dragEvent w k st en ad) w' /\
       store w' = store w /\ jobs w' = [] /\ errors w' = errors w ++ ["UnhandledRejection"%string] /\
       ~ consistent org_id w') /\
  (exists j w', jobs (deleteEvent w k) = [j] /\ fail_step (deleteEvent w k) w' /\
     store w' = store w /\ jobs w' = [] /\ errors w' = errors w ++ ["UnhandledRejection"%string] /\
     ~ consistent org_id w').
Proof.
  intros Hc Hj Hk. split.
  - intros st en ad Hne. unfold dragEvent, updateEvent. rewrite Hk.
    set (w1 := spawn _ _). assert (Hj1 : jobs w1 = [UpdateJob (Event.id ev) (Patch.times st en)]).
    { unfold w1. simpl. by rewrite Hj. }
    destruct (reject_single w1 _ Hj1) as (Hf & Hs & He & Hj' & _ & Herr).
    eexists _, _. split_and!; [exact Hj1 | exact Hf | exact Hs | exact Hj' | exact Herr |].
    unfold consistent. rewrite Hs, He. by apply (insert_inconsistent w k ev).
  - unfold deleteEvent. rewrite Hk.
    set (w1 := spawn _ _). assert (Hj1 : jobs w1 = [UpdateJob (Event.id ev) (Patch.remind false)]).
    { unfold w1. simpl. by rewrite Hj. }
    destruct (reject_single w1 _ Hj1) as (Hf & Hs & He & Hj' & _ & Herr).
    eexists _, _. split_and!; [exact Hj1 | exact Hf | exact Hs | exact Hj' | exact Herr |].
    unfold consistent. rewrite Hs, He. intros Hp. unfold consistent in Hc. simpl in Hp.
    rewrite <- Hc in Hp. apply Permutation_length in Hp.
    rewrite length_delete in Hp by done. pose proof (lookup_lt_Some _ _ _ Hk). lia.
Qed.

(** C31: A create whose call rejects is harmless to the widget: its one
    pending call rejects, the store, the widget and the notifications are
    as before (no success message), an unhandled rejection is reported,
    and a consistent widget stays consistent. *)
Theorem create_rejected_harmless (w : World St) title sd st et ad c dl tk ty n :
  consistent org_id w -> jobs w = [] ->
  let w1 := createNewEventDate user_id org_id w title sd st et ad c dl tk ty n in
  exists j w', jobs w1 = [j] /\ fail_step w1 w' /\
    store w' = store w /\ events w' = events w /\ jobs w' = [] /\ toasts w' = toasts w /\
    errors w' = errors w ++ ["UnhandledRejection"%string] /\ consistent org_id w'.
Proof.
  intros Hc Hj w1. assert (Hj1 : exists j, jobs w1 = [j]) by (eexists; unfold w1; simpl; by rewrite Hj).
  destruct Hj1 as [j Hj1]. destruct (reject_single w1 j Hj1) as (Hf & Hs & He & Hj' & Ht & Herr).
  exists j, (reject_job (set_jobs w1 []) j). split_and!; eassumption.
Qed.
End Failure.

Lemma rtc_job_fail {St} `{!InteractionStore St} org_id (w w' : World St) :
  rtc (job_step org_id) w w' -> rtc (fail_step org_id) w w'.
Proof. induction 1; [done |]. eapply rtc_l; [by apply fail_resolve | done]. Qed.

(** ** A load in which one contact lookup rejects *)

Local Open Scope string_scope.

(** The fetches and the load have completed; the lookup for [call]
    rejects, the one for [review] resolves. *)
Definition adds_pending : World FireStore := settle "o1" 4 (mount world0).
Definition call_rejected : World FireStore :=
  reject_job (set_jobs adds_pending [AddEventJob review]) (AddEventJob call).
Definition lossy_done : World FireStore :=
  run_job "o1" (set_jobs call_rejected []) (AddEventJob review).

Lemma adds_pending_steps : rtc (fail_step "o1") (mount world0) adds_pending.
Proof. apply rtc_job_fail, settle_rtc. Qed.

Lemma call_rejected_step : fail_step "o1" adds_pending call_rejected.
Proof. apply (fail_reject "o1" adds_pending [] (AddEventJob call) [AddEventJob review]). vm_decide. Qed.

Lemma lossy_done_step : fail_step "o1" call_rejected lossy_done.
Proof. apply fail_resolve, (job_step_intro "o1" call_rejected [] (AddEventJob review) []). vm_decide. Qed.

Lemma lossy_done_steps : rtc (fail_step "o1") (mount world0) lossy_done.
Proof.
  eapply rtc_trans; [exact adds_pending_steps |].
  exact (rtc_l _ _ _ _ call_rejected_step (rtc_once _ _ lossy_done_step)).
Qed.

Lemma load_lossy_witness :
  jobs world0 = [] /\ rtc (fail_step "o1") (mount world0) lossy_done /\
  store lossy_done = store world0 /\ events lossy_done ⊆+ projection "o1" (store world0) /\
  events lossy_done = [ev_review] /\ errors lossy_done = ["UnhandledRejection"].
Proof.
  assert (Hj : jobs world0 = []) by reflexivity.
  destruct (load_lossy "o1" world0 lossy_done Hj lossy_done_steps) as [Hs Hsub].
  split_and!; [exact Hj | exact lossy_done_steps | exact Hs | exact Hsub | vm_decide | vm_decide].
Defined.

Lemma loaded_call_event : events loaded !! 0%nat = Some ev_call.
Proof. by rewrite loaded_events. Defined.

(** Dragging [call] to 11:00-12:00 or deleting it, with the update
    rejected. *)
Lemma edit_rejected_diverges_witness :
  consistent "o1" loaded /\ jobs loaded = [] /\ events loaded !! 0%nat = Some ev_call /\
  Event.mk "i1" "Meeting with Ann" (Some (jan10 + 11 * msPerHour)%Z)
    (Some (Some (jan10 + 12 * msPerHour)%Z)) false <> ev_call /\
  ((forall st en ad, Event.mk (Event.id ev_call) (Event.title ev_call) st en ad <> ev_call ->
     exists j w', jobs (dragEvent loaded 0 st en ad) = [j] /\ fail_step "o1" (dragEvent loaded 0 st en ad) w' /\
       store w' = store loaded /\ jobs w' = [] /\ errors w' = (errors loaded ++ ["UnhandledRejection"])%list /\
       ~ consistent "o1" w') /\
   (exists j w', jobs (deleteEvent loaded 0) = [j] /\ fail_step "o1" (deleteEvent loaded 0) w' /\
     store w' = store loaded /\ jobs w' = [] /\ errors w' = (errors loaded ++ ["UnhandledRejection"])%list /\
     ~ consistent "o1" w')).
Proof.
  assert (Hne : Event.mk "i1" "Meeting with Ann" (Some (jan10 + 11 * msPerHour)%Z)
    (Some (Some (jan10 + 12 * msPerHour)%Z)) false <> ev_call) by vm_refute.
  exact (conj loaded_consistent (conj loaded_jobs (conj loaded_call_event (conj Hne
    (edit_rejected_diverges "o1" loaded 0 ev_call loaded_consistent loaded_jobs loaded_call_event))))).
Defined.

Lemma create_rejected_harmless_witness :
  consistent "o1" loaded /\ jobs loaded = [] /\
  exists j w', jobs (createNewEventDate "u1" "o1" loaded "Demo" (Some jan10) "09:00"
                  (Some "10:00") false None None None None None) = [j] /\
    fail_step "o1" (createNewEventDate "u1" "o1" loaded "Demo" (Some jan10) "09:00"
                  (Some "10:00") false None None None None None) w' /\
    store w' = store loaded /\ events w' = events loaded /\ jobs w' = [] /\
    toasts w' = toasts loaded /\ errors w' = (errors loaded ++ ["UnhandledRejection"])%list /\
    consistent "o1" w'.
Proof.
  exact (conj loaded_consistent (conj loaded_jobs (create_rejected_harmless "u1" "o1" loaded "Demo"
    (Some jan10) "09:00" (Some "10:00") false None None None None None loaded_consistent loaded_jobs))).
Defined.
