(* ===== verification/CalendarInterleave.v ===== *)
(** * Deletes and drags interleaved with out-of-order completions

    The spec promises eventual consistency: once the remote calls of the
    user's edits have completed, the widget is the projection of the
    store.  Deletes and drags change the widget at once and send an
    [updateInteraction] that completes later, in any order.  The invariant
    [edit_inv] says that the widget is the projection of the store that
    the pending updates will produce; it holds along every interleaving of
    such gestures and completions ([edit_step]) as long as no event is
    edited again while its previous update is in flight, because updates
    of different documents commute.  A concrete session shows that the
    side condition is needed: two drags of the same event whose updates
    complete in the opposite order leave the widget showing the second
    position and the store the first. *)

From S2P Require Import Prelude JsRuntime Store Calendar CalendarProofs Examples.

Section Interleave.
Context {St : Type} `{!InteractionStore St} `{!InteractionStoreLaws St}.
Variable org_id : string.

(** The document a pending continuation will update, if it is an update. *)
Definition update_id (j : Job) : option string :=
  match j with UpdateJob i _ => Some i | _ => None end.

Definition pending_ids (js : list Job) : list string := omap update_id js.

(** The store once the pending updates have been written in issue order. *)
Fixpoint apply_pending (s : St) (js : list Job) : St :=
  match js with
  | [] => s
  | UpdateJob i p :: js' => apply_pending (updateInteraction s i p) js'
  | _ :: js' => apply_pending s js'
  end.

Definition only_updates (js : list Job) : Prop := Forall (fun j => is_Some (update_id j)) js.

Definition edit_inv (w : World St) : Prop :=
  only_updates (jobs w) /\ NoDup (pending_ids (jobs w)) /\
  consistent org_id (set_store w (apply_pending (store w) (jobs w))).

(** A delete or a drag of an event with no update in flight (the drag's
    all-day flag being the one its end implies), or the completion of any
    pending call. *)
Inductive edit_step : World St -> World St -> Prop :=
  | edit_delete w k ev :
      events w !! k = Some ev -> Event.id ev ∉ pending_ids (jobs w) ->
      edit_step w (deleteEvent w k)
  | edit_drag w k ev st en :
      events w !! k = Some ev -> Event.id ev ∉ pending_ids (jobs w) ->
      edit_step w (dragEvent w k st en (match en with None => true | Some _ => false end))
  | edit_complete w w' : job_step org_id w w' -> edit_step w w'.

Lemma apply_pending_app s js1 js2 :
  apply_pending s (js1 ++ js2) = apply_pending (apply_pending s js1) js2.
Proof. revert s. induction js1 as [| [] js1 IH]; intros s; simpl; auto. Qed.

(** An update commutes past pending updates of other documents. *)
Lemma apply_pending_update s i p js :
  i ∉ pending_ids js ->
  apply_pending (updateInteraction s i p) js = updateInteraction (apply_pending s js) i p.
Proof.
  revert s. induction js as [| [] js IH]; intros s Hi; simpl in *; auto.
  rewrite update_comm by set_solver. apply IH. set_solver.
Qed.

Lemma pending_ids_app js1 js2 : pending_ids (js1 ++ js2) = pending_ids js1 ++ pending_ids js2.
Proof. apply omap_app. Qed.

Lemma set_store_self (w : World St) : set_store w (store w) = w.
Proof. by destruct w. Qed.

(** A gesture that sends one update of an event with none in flight, when
    the widget becomes the projection of the store that update produces. *)
Lemma edit_inv_spawn (w : World St) evs i p :
  edit_inv w -> i ∉ pending_ids (jobs w) ->
  evs ≡ₚ projection org_id (updateInteraction (apply_pending (store w) (jobs w)) i p) ->
  edit_inv (spawn (set_events w evs) [UpdateJob i p]).
Proof.
  intros (Hu & Hnd & _) Hi Hp. split_and!.
  - apply Forall_app. split; [done |]. repeat constructor. done.
  - simpl. rewrite pending_ids_app. simpl. apply NoDup_app. split_and!; [done | set_solver |].
    repeat constructor. set_solver.
  - unfold consistent. simpl. by rewrite apply_pending_app.
Qed.

Lemma edit_inv_complete (w w' : World St) : edit_inv w -> job_step org_id w w' -> edit_inv w'.
Proof.
  intros (Hu & Hnd & Hc) Hstep. inversion Hstep as [? pre j post Hj]; subst.
  rewrite Hj in Hu, Hnd, Hc. apply Forall_app in Hu as [Hpre Hjp].
  apply Forall_cons in Hjp as [[i Hji] Hpost].
  destruct j as [| | | i' p | | | | |]; simpl in Hji; try discriminate. injection Hji as ->.
  rewrite pending_ids_app in Hnd. simpl in Hnd.
  apply NoDup_app in Hnd as (Hnd1 & Hdis & Hnd2). apply NoDup_cons in Hnd2 as [Hi Hnd2].
  assert (i ∉ pending_ids pre) by (intros Hin; apply (Hdis i Hin); set_solver).
  split_and!; simpl.
  - by apply Forall_app.
  - rewrite pending_ids_app. apply NoDup_app. split_and!; [done | | done].
    intros x Hx1 Hx2. apply (Hdis x Hx1). set_solver.
  - unfold consistent in *. simpl in *.
    rewrite apply_pending_app, apply_pending_update by done.
    by rewrite apply_pending_app in Hc.
Qed.

Lemma edit_inv_step (w w' : World St) : edit_inv w -> edit_step w w' -> edit_inv w'.
Proof.
  intros Hinv Hstep. destruct Hstep as [w k ev Hk Hi | w k ev st en Hk Hi | w w' Hj].
  - unfold deleteEvent. rewrite Hk. apply edit_inv_spawn; [done | done |].
    apply (delete_projection org_id (set_store w _) k ev (proj2 (proj2 Hinv)) Hk).
  - unfold dragEvent, updateEvent. rewrite Hk. apply edit_inv_spawn; [done | done |].
    apply (drag_projection org_id (set_store w _) k ev st en (proj2 (proj2 Hinv)) Hk).
  - by apply (edit_inv_complete w).
Qed.

Lemma edit_inv_rtc (w w' : World St) : edit_inv w -> rtc edit_step w w' -> edit_inv w'.
Proof. intros H Hr. induction Hr; eauto using edit_inv_step. Qed.

(** C2: From a consistent widget with nothing pending, any sequence of
    deletes and drags whose updates complete in any order ends, once
    nothing is pending, in a widget consistent with the store, under the
    two side conditions [edit_step] states: no event is edited again while
    its update is in flight (C16 shows why), and a drag sets the all-day
    flag to the one its end implies, all-day exactly when it has no end
    (C35 shows why). *)
Theorem edits_consistent_any_order (w w' : World St) :
  consistent org_id w -> jobs w = [] -> rtc edit_step w w' -> jobs w' = [] ->
  consistent org_id w'.
Proof.
  intros Hc Hj Hr Hj'.
  assert (Hinv : edit_inv w).
  { unfold edit_inv. rewrite Hj. simpl. rewrite set_store_self. split_and!; [constructor | constructor | done]. }
  destruct (edit_inv_rtc w w' Hinv Hr) as (_ & _ & Hc').
  rewrite Hj' in Hc'. simpl in Hc'. by rewrite set_store_self in Hc'.
Qed.
End Interleave.

(** ** The concrete session *)

Local Open Scope string_scope.

Definition at_11 : time_value := Some (jan10 + 11 * msPerHour)%Z.
Definition to_12 : option time_value := Some (Some (jan10 + 12 * msPerHour)%Z).
Definition at_14 : time_value := Some (jan10 + 14 * msPerHour)%Z.
Definition to_15 : option time_value := Some (Some (jan10 + 15 * msPerHour)%Z).

(** [call] is moved to 11:00-12:00 and [review] is deleted; the delete's
    update completes first. *)
Definition moved : World FireStore := dragEvent loaded 0 at_11 to_12 false.
Definition moved_deleted : World FireStore := deleteEvent moved 1.
Definition deleted_done : World FireStore :=
  run_job "o1" (set_jobs moved_deleted [UpdateJob "i1" (Patch.times at_11 to_12)])
    (UpdateJob "i2" (Patch.remind false)).
Definition both_done : World FireStore :=
  run_job "o1" (set_jobs deleted_done []) (UpdateJob "i1" (Patch.times at_11 to_12)).

Lemma both_done_steps : rtc (edit_step "o1") loaded both_done.
Proof.
  apply (rtc_l _ _ moved); [apply (edit_drag "o1" loaded 0 ev_call at_11 to_12); vm_decide |].
  apply (rtc_l _ _ moved_deleted); [apply (edit_delete "o1" moved 1 ev_review); vm_decide |].
  apply (rtc_l _ _ deleted_done); [apply edit_complete,
    (job_step_intro "o1" moved_deleted [UpdateJob "i1" (Patch.times at_11 to_12)]
       (UpdateJob "i2" (Patch.remind false)) []); vm_decide |].
  apply (rtc_l _ _ both_done); [apply edit_complete,
    (job_step_intro "o1" deleted_done [] (UpdateJob "i1" (Patch.times at_11 to_12)) []);
    vm_decide |].
  apply rtc_refl.
Qed.

Lemma edits_consistent_any_order_witness :
  consistent "o1" loaded /\ jobs loaded = [] /\ rtc (edit_step "o1") loaded both_done /\
  jobs both_done = [] /\ consistent "o1" both_done.
Proof.
  assert (Hj : jobs both_done = []) by vm_decide.
  exact (conj loaded_consistent (conj loaded_jobs (conj both_done_steps (conj Hj
    (edits_consistent_any_order "o1" loaded both_done loaded_consistent loaded_jobs
       both_done_steps Hj))))).
Defined.

(** The same event dragged twice; the second update completes first. *)
Definition dragged_once : World FireStore := handle "u1" "o1" loaded (Drag 0 at_11 to_12 false).
Definition dragged_twice : World FireStore := handle "u1" "o1" dragged_once (Drag 0 at_14 to_15 false).
Definition second_done : World FireStore :=
  run_job "o1" (set_jobs dragged_twice [UpdateJob "i1" (Patch.times at_11 to_12)])
    (UpdateJob "i1" (Patch.times at_14 to_15)).
Definition first_done : World FireStore :=
  run_job "o1" (set_jobs second_done []) (UpdateJob "i1" (Patch.times at_11 to_12)).

(** C16: The side condition of C2 is needed: when an event is dragged
    twice and the second update completes before the first, the store
    keeps the first position while the widget shows the second, and
    nothing is pending any more. *)
Theorem drag_race_inconsistent :
  exists w', rtc (step "u1" "o1") loaded w' /\ jobs w' = [] /\
    events w' !! 0 = Some (Event.mk "i1" "Meeting with Ann" at_14 to_15 false) /\
    getInteraction (store w') "i1" = Some (Patch.apply (Patch.times at_11 to_12) call) /\
    ~ consistent "o1" w'.
Proof.
  exists first_done. split_and!; [| vm_decide | vm_decide | vm_decide | vm_refute].
  apply (rtc_l _ _ dragged_once); [apply step_gesture |].
  apply (rtc_l _ _ dragged_twice); [apply step_gesture |].
  apply (rtc_l _ _ second_done); [apply (step_job "u1" "o1" dragged_twice
    [UpdateJob "i1" (Patch.times at_11 to_12)] (UpdateJob "i1" (Patch.times at_14 to_15)) []);
    vm_decide |].
  apply (rtc_l _ _ first_done); [apply (step_job "u1" "o1" second_done []
    (UpdateJob "i1" (Patch.times at_11 to_12)) []); vm_decide |].
  apply rtc_refl.
Qed.

(** The all-day [review] dragged into the 09:00 slot of the time grid:
    FullCalendar gives the event [allDay = false] and no end. *)
Definition at_9 : time_value := Some (jan10 + 9 * msPerHour)%Z.
Definition review_timed : World FireStore := handle "u1" "o1" loaded (Drag 1 at_9 None false).
Definition review_timed_done : World FireStore :=
  run_job "o1" (set_jobs review_timed []) (UpdateJob "i2" (Patch.times at_9 None)).

(** C35: The other side condition of C2 is needed too: an all-day event
    dragged into a timed slot keeps no end while the widget marks it
    timed; [updateEvent] stores the null end, which the projection reads
    as all-day, so once the update has completed the widget shows a timed
    event the store's projection shows all-day. *)
Theorem drag_allday_to_timed_inconsistent :
  exists w', rtc (step "u1" "o1") loaded w' /\ jobs w' = [] /\
    events w' !! 1 = Some (Event.mk "i2" "Review" at_9 None false) /\
    getInteraction (store w') "i2" = Some (Patch.apply (Patch.times at_9 None) review) /\
    ~ consistent "o1" w'.
Proof.
  exists review_timed_done. split_and!; [| vm_decide | vm_decide | vm_decide | vm_refute].
  apply (rtc_l _ _ review_timed); [apply step_gesture |].
  apply (rtc_l _ _ review_timed_done); [apply (step_job "u1" "o1" review_timed []
    (UpdateJob "i2" (Patch.times at_9 None)) []); vm_decide |].
  apply rtc_refl.
Qed.
