(* ===== verification/CalendarRefinement.v ===== *)
(** * The calendar controller refines an abstract calendar

    The spec describes the calendar by its effect on the store: each user
    action performs at most one store operation (create a document, update
    one, or nothing), and once its remote calls have completed the widget
    shows the projection of the store.  [AOp] and [astep] are that abstract
    machine; [gesture_op] is the operation the spec assigns to each
    gesture.  The refinement theorem says that every gesture of the
    controller ([handle]), run until its calls have completed, changes the
    store by exactly that operation and keeps the widget the projection of
    the store, under the conditions the other theorems show necessary
    (an all-day or timed create with a title, a drag whose all-day flag
    follows its end, an edit that keeps [remindMe] of a displayed event).
    With rejected calls ([fail_step]) the store effect stays atomic: it
    is none or exactly the spec's operation. *)

From S2P Require Import Prelude JsRuntime Store Calendar CalendarProofs CalendarLoad Examples CalendarFailure.

(** The store operations of the spec's calendar. *)
Inductive AOp :=
  | ANop
  | ACreate (a : NewInteraction.t)
  | AUpdate (i : string) (p : Patch.t).

Definition astep {St} `{!InteractionStore St} (s : St) (o : AOp) : St :=
  match o with
  | ANop => s
  | ACreate a => (createNewInteraction s a).2
  | AUpdate i p => updateInteraction s i p
  end.

Section Refinement.
Context {St : Type} `{!InteractionStore St} `{!InteractionStoreLaws St}.
Variables (user_id org_id : string).

(** The end of a created event: none when there is no end time or the
    event is all-day. *)
Definition spec_end (sd : time_value) (et : option string) (ad : bool) : option time_value :=
  if truthy et && negb ad then (fun e => at_time sd e) <$> et else None.

(** The document the spec's create persists: owner and participants the
    current user, [remindMe] set, the optional fields defaulting to the
    empty string, and no end when there is no end time or the event is
    all-day. *)
Definition spec_new_interaction (title : string) (sd : time_value) (st : string)
    (et : option string) (ad : bool) (c dl tk ty n : option string) : NewInteraction.t :=
  NewInteraction.mk org_id (c ?? ""%string) user_id (dl ?? ""%string) (at_time sd st)
    (ty ?? ""%string) (n ?? ""%string) (tk ?? ""%string) true title (spec_end sd et ad) [user_id].

(** The store operation the spec assigns to a gesture. *)
Definition gesture_op (w : World St) (g : Gesture) : AOp :=
  match g with
  | SubmitCreate t sd st et ad c dl tk ty n => ACreate (spec_new_interaction t sd st et ad c dl tk ty n)
  | DeleteClick k =>
      match events w !! k with Some ev => AUpdate (Event.id ev) (Patch.remind false) | None => ANop end
  | Drag k s e _ =>
      match events w !! k with Some ev => AUpdate (Event.id ev) (Patch.times s e) | None => ANop end
  | EditSubmit p =>
      match editDoc (ui w) with Some d => AUpdate (Interaction.id d) p | None => ANop end
  | Mount | DateClick _ | EditClick _ => ANop
  end.

(** The conditions under which a gesture keeps the widget consistent. *)
Definition gesture_ok (w : World St) (g : Gesture) : Prop :=
  match g with
  | SubmitCreate t _ _ et ad _ _ _ _ _ => (ad = true \/ truthy et = true) /\ truthy t = true
  | Drag _ _ e ad => ad = match e with None => true | Some _ => false end
  | EditSubmit p =>
      match editDoc (ui w) with
      | Some d => is_Some (getEventById (events w) (Interaction.id d)) /\ Patch.remindMe p <> Some false
      | None => True
      end
  | _ => True
  end.

(** Enough fuel for any one gesture's calls: the mount runs its three
    fetches, its load and one call per displayed document, an edit two,
    the others at most one. *)
Definition gesture_fuel (w : World St) : nat := 4 + length (remdocs org_id (store w)).

(** The abstract state of a world: its store, when nothing is pending and
    the widget is the projection of it. *)
Definition refines (w : World St) (s : St) : Prop :=
  store w = s /\ jobs w = [] /\ consistent org_id w.

Lemma settle_idle n (w : World St) : jobs w = [] -> settle org_id n w = w.
Proof. destruct n; simpl; [done |]. by intros ->. Qed.

(** Fuel past the point where nothing is pending changes nothing. *)
Lemma settle_le n m (w : World St) :
  n <= m -> jobs (settle org_id n w) = [] -> settle org_id m w = settle org_id n w.
Proof.
  revert m w. induction n as [| n IH]; intros m w Hnm Hj; [by apply settle_idle |].
  destruct m as [| m]; [lia |]. simpl in *.
  destruct (jobs w); [done |]. apply IH; [lia | done].
Qed.

(** A gesture refines its operation with [n] units of fuel. *)
Definition refines_with (n : nat) (w : World St) (g : Gesture) : Prop :=
  refines (settle org_id n (handle user_id org_id w g)) (astep (store w) (gesture_op w g)).

Lemma refines_with_le n m (w : World St) g :
  n <= m -> refines_with n w g -> refines_with m w g.
Proof. intros Hnm (Hs & Hj & Hc). unfold refines_with. by rewrite (settle_le n m). Qed.

Lemma refine_idle (w : World St) g w' :
  jobs w = [] -> consistent org_id w -> handle user_id org_id w g = w' ->
  store w' = store w -> jobs w' = [] -> events w' = events w -> gesture_op w g = ANop ->
  refines_with 0 w g.
Proof.
  intros Hj Hc <- Hs Hj' He Hop. unfold refines_with, refines. rewrite Hop. simpl.
  split_and!; [done | done |]. unfold consistent. by rewrite Hs, He.
Qed.
Lemma spec_end_code sd et ad :
  spec_end sd et ad
  = match et with
    | Some e => if truthy e && negb ad then Some (at_time sd e) else None
    | None => None
    end.
Proof.
  unfold spec_end. destruct et as [e |]; [| done].
  rewrite truthy_Some. by destruct (truthy e && negb ad).
Qed.

Lemma refine_mount (w : World St) :
  jobs w = [] -> refines_with (4 + length (remdocs org_id (store w))) w Mount.
Proof.
  intros Hj. unfold refines_with. cbn [handle gesture_op astep].
  destruct (settle_mount org_id w Hj) as (Hs & Hj' & He).
  split_and!; [done | done |]. unfold consistent. by rewrite He, Hs.
Qed.

Lemma refine_create (w : World St) t sd st et ad c dl tk ty n :
  jobs w = [] -> consistent org_id w -> (ad = true \/ truthy et = true) -> truthy t = true ->
  refines_with 1 w (SubmitCreate t sd st et ad c dl tk ty n).
Proof.
  intros Hj Hc Had Ht. unfold refines_with. cbn [handle gesture_op astep].
  unfold spec_new_interaction. rewrite spec_end_code.
  unfold createNewEventDate. rewrite settle_single by done. cbn [run_job].
  destruct (createNewInteraction (store w) _) as [i s'] eqn:Hcr.
  split_and!; [done | by simpl |]. unfold consistent. cbn.
  rewrite (create_projection org_id w _ i s' _ Hc Hcr eq_refl eq_refl).
  by apply create_event_matches.
Qed.

Lemma refine_delete (w : World St) k :
  jobs w = [] -> consistent org_id w -> refines_with 1 w (DeleteClick k).
Proof.
  intros Hj Hc. unfold refines_with. cbn [handle gesture_op]. unfold deleteEvent.
  destruct (events w !! k) as [ev |] eqn:Hk.
  - rewrite settle_single by done. split_and!; [done | by simpl |].
    unfold consistent. simpl. by apply delete_projection.
  - by rewrite settle_idle.
Qed.

Lemma refine_drag (w : World St) k st en ad :
  jobs w = [] -> consistent org_id w -> ad = match en with None => true | Some _ => false end ->
  refines_with 1 w (Drag k st en ad).
Proof.
  intros Hj Hc ->. unfold refines_with. cbn [handle gesture_op]. unfold dragEvent, updateEvent.
  destruct (events w !! k) as [ev |] eqn:Hk.
  - rewrite settle_single by done. split_and!; [done | by simpl |].
    unfold consistent. cbn. by apply drag_projection.
  - by rewrite settle_idle.
Qed.

Lemma refine_edit_click (w : World St) k :
  jobs w = [] -> consistent org_id w -> refines_with 1 w (EditClick k).
Proof.
  intros Hj Hc. unfold refines_with. cbn [handle gesture_op astep].
  destruct (events w !! k) as [ev |].
  - unfold handleEdit. rewrite settle_single by done. by split_and!.
  - by rewrite settle_idle.
Qed.

Lemma refine_edit_submit (w : World St) p :
  jobs w = [] -> consistent org_id w -> gesture_ok w (EditSubmit p) ->
  refines_with 2 w (EditSubmit p).
Proof.
  intros Hj Hc Hok. unfold refines_with. cbn [handle gesture_op gesture_ok] in *.
  destruct (editDoc (ui w)) as [d |] eqn:He.
  - destruct Hok as [[k Hk] Hp].
    destruct (getEventById_Some _ _ _ Hk) as (ev & Hev & Hid).
    destruct (consistent_event_doc org_id w k ev Hc Hev) as (d0 & _ & _ & Hg).
    rewrite Hid in Hg. destruct (editSubmit_events org_id w p d k d0 Hj He Hk Hg) as (Hs & Hj' & Hevs).
    split_and!; [done | done |]. unfold consistent. rewrite Hevs, Hs, <- Hid.
    apply (edit_projection org_id w p k ev d0 Hc Hev); [by rewrite Hid | done].
  - unfold editSubmit. rewrite He. by rewrite settle_idle.
Qed.
(** C3: Refinement: from a widget that is the projection of the store
    with nothing pending, every gesture that meets its conditions, run
    until its calls have completed, changes the store by exactly the
    operation the spec assigns to it and leaves a widget that is the
    projection of the new store with nothing pending. *)
Theorem calendar_refines (w : World St) (g : Gesture) :
  refines w (store w) -> gesture_ok w g ->
  refines (settle org_id (gesture_fuel w) (handle user_id org_id w g))
    (astep (store w) (gesture_op w g)).
Proof.
  intros (_ & Hj & Hc) Hok. unfold gesture_fuel.
  destruct g as [| d | t sd st et ad c dl tk ty n | k | k st en ad | k | p];
    cbn [gesture_ok] in Hok.
  - by apply refine_mount.
  - apply (refines_with_le 0); [lia |]. by apply (refine_idle w _ _ Hj Hc eq_refl).
  - apply (refines_with_le 1); [lia |]. destruct Hok. by apply refine_create.
  - apply (refines_with_le 1); [lia |]. by apply refine_delete.
  - apply (refines_with_le 1); [lia |]. by apply refine_drag.
  - apply (refines_with_le 1); [lia |]. by apply refine_edit_click.
  - apply (refines_with_le 2); [lia |]. by apply refine_edit_submit.
Qed.
End Refinement.

(** A timed create submitted on the loaded session. *)
Definition demo_create : Gesture :=
  SubmitCreate "Demo" (Some jan10) "09:00" (Some "10:00"%string) false None None None None None.

Lemma calendar_refines_witness :
  refines "o1" loaded (store loaded) /\ gesture_ok loaded demo_create /\
  refines "o1" (settle "o1" (gesture_fuel "o1" loaded) (handle "u1" "o1" loaded demo_create))
    (astep (store loaded) (gesture_op "u1" "o1" loaded demo_create)).
Proof.
  assert (Hr : refines "o1" loaded (store loaded)) by exact (conj eq_refl (conj loaded_jobs loaded_consistent)).
  assert (Hok : gesture_ok loaded demo_create) by (split; [right |]; reflexivity).
  exact (conj Hr (conj Hok (calendar_refines "u1" "o1" loaded demo_create Hr Hok))).
Defined.

(** ** Atomicity of the store effect under failures

    Whatever calls of a gesture reject and in whatever order the others
    complete, the store ends unchanged or changed by exactly the spec's
    operation: a gesture issues at most one write ([CreateJob] or
    [UpdateJob]), and the continuations that follow a write or run
    beside it never write. *)
Section Atomicity.
Context {St : Type} `{!InteractionStore St}.
Variables (user_id org_id : string).

(** The continuations that do not write the store. *)
Definition pure_job (j : Job) : bool :=
  match j with CreateJob _ _ | UpdateJob _ _ => false | _ => true end.

(** The store a writing continuation produces from [s]. *)
Definition job_write (s : St) (j : Job) : option St :=
  match j with
  | CreateJob a _ => Some (createNewInteraction s a).2
  | UpdateJob i p => Some (updateInteraction s i p)
  | _ => None
  end.

Definition n_writes (js : list Job) : nat := length (List.filter (fun j => negb (pure_job j)) js).

(** Before the write: store [s0], at most one pending write, producing
    [s1].  After it: store [s1], no write pending. *)
Definition atomic_inv (s0 s1 : St) (w : World St) : Prop :=
  (store w = s0 /\ Forall (fun j => pure_job j = true \/ job_write s0 j = Some s1) (jobs w) /\
   n_writes (jobs w) <= 1) \/
  (store w = s1 /\ Forall (fun j => pure_job j = true) (jobs w)).

Lemma n_writes_app js1 js2 : n_writes (js1 ++ js2) = n_writes js1 + n_writes js2.
Proof. unfold n_writes. by rewrite List.filter_app, length_app. Qed.

Lemma n_writes_pure js : Forall (fun j => pure_job j = true) js -> n_writes js = 0.
Proof. induction 1 as [| j js Hj _ IH]; [done |]. unfold n_writes in *. simpl. by rewrite Hj. Qed.

(** No write left: every continuation is pure. *)
Lemma n_writes_zero s0 s1 js :
  Forall (fun j => pure_job j = true \/ job_write s0 j = Some s1) js -> n_writes js = 0 ->
  Forall (fun j => pure_job j = true) js.
Proof.
  induction 1 as [| j js Hj _ IH]; [done |]. unfold n_writes. simpl.
  destruct (pure_job j) eqn:Hp; simpl; [| done]. intros Hn. constructor; [done | by apply IH].
Qed.

(** A pure continuation keeps the store and schedules pure ones. *)
Lemma run_pure (w : World St) j :
  pure_job j = true ->
  store (run_job org_id w j) = store w /\
  exists js, jobs (run_job org_id w j) = jobs w ++ js /\ Forall (fun j => pure_job j = true) js.
Proof.
  intros Hp. destruct j as [d | | a ad | i p | i | i | | |]; try discriminate; cbn [run_job];
    repeat case_match; simpl; split; try done;
    first [by exists [] ; rewrite app_nil_r | eexists; split; [done |]].
  - apply Forall_fmap, Forall_forall. done.
  - by repeat constructor.
Qed.

Lemma run_write (w : World St) j s' :
  job_write (store w) j = Some s' -> store (run_job org_id w j) = s' /\ jobs (run_job org_id w j) = jobs w.
Proof.
  destruct j as [| | a ad | i p | | | | |]; cbn [job_write run_job]; try discriminate;
    intros [= <-]; [| done].
  by destruct (createNewInteraction (store w) a).
Qed.

Lemma n_writes_cons j js : n_writes (j :: js) = (if pure_job j then 0 else 1) + n_writes js.
Proof. unfold n_writes. simpl. by destruct (pure_job j). Qed.

Lemma write_not_pure s0 s1 j : job_write s0 j = Some s1 -> pure_job j = false.
Proof. by destruct j. Qed.

Lemma atomic_inv_step s0 s1 (w w' : World St) :
  atomic_inv s0 s1 w -> fail_step org_id w w' -> atomic_inv s0 s1 w'.
Proof.
  intros Hinv Hstep. destruct Hstep as [w w' Hj | w pre j post Hj].
  - inversion Hj as [? pre j post Hjs]; subst.
    destruct Hinv as [(Hs & Hf & Hn) | (Hs & Hf)]; rewrite Hjs in Hf;
      apply Forall_app in Hf as [Hpre Hjp]; apply Forall_cons in Hjp as [Hjj Hpost].
    + rewrite Hjs, n_writes_app, n_writes_cons in Hn. destruct Hjj as [Hp | Hw].
      * destruct (run_pure (set_jobs w (pre ++ post)) j Hp) as (Hs' & js & Hj' & Hjs').
        left. rewrite Hs', Hj'. cbn [set_jobs jobs store]. rewrite Hp in Hn. split_and!; [done | |].
        -- apply Forall_app; split; [by apply Forall_app |]. eapply Forall_impl; [exact Hjs' | naive_solver].
        -- rewrite !n_writes_app, (n_writes_pure js) by done. lia.
      * rewrite (write_not_pure _ _ _ Hw) in Hn. rewrite <- Hs in Hw.
        destruct (run_write (set_jobs w (pre ++ post)) j s1 Hw) as [Hs' Hj']. right.
        rewrite Hs', Hj'. split; [done |]. apply (n_writes_zero s0 s1); [by apply Forall_app |].
        cbn [set_jobs jobs]. rewrite n_writes_app. lia.
    + destruct (run_pure (set_jobs w (pre ++ post)) j Hjj) as (Hs' & js & Hj' & Hjs').
      right. rewrite Hs', Hj'. cbn [set_jobs jobs store]. split; [done |].
      apply Forall_app; split; [by apply Forall_app | done].
  - destruct Hinv as [(Hs & Hf & Hn) | (Hs & Hf)]; rewrite Hj in Hf;
      apply Forall_app in Hf as [Hpre Hjp]; apply Forall_cons in Hjp as [_ Hpost].
    + left. split_and!; [done | by apply Forall_app |]. simpl.
      rewrite Hj, !n_writes_app, n_writes_cons in Hn. rewrite n_writes_app. lia.
    + right. split; [done |]. by apply Forall_app.
Qed.

Lemma atomic_inv_rtc s0 s1 (w w' : World St) :
  atomic_inv s0 s1 w -> rtc (fail_step org_id) w w' -> atomic_inv s0 s1 w'.
Proof. intros H Hr. induction Hr; eauto using atomic_inv_step. Qed.

(** Right after a gesture: its one write, if any, produces the spec's
    operation. *)
Lemma atomic_inv_handle (w : World St) g :
  jobs w = [] ->
  atomic_inv (store w) (astep (store w) (gesture_op user_id org_id w g)) (handle user_id org_id w g).
Proof.
  intros Hj. destruct g as [| d | t sd st et ad c dl tk ty n | k | k st en ad | k | p];
    cbn [handle gesture_op astep].
  - left. simpl. rewrite Hj. simpl. split_and!; [done | repeat constructor | compute; lia].
  - left. simpl. rewrite Hj. split_and!; [done | constructor | compute; lia].
  - left. unfold createNewEventDate. simpl. rewrite Hj. simpl. split_and!; [done | | compute; lia].
    constructor; [right | constructor]. unfold spec_new_interaction. by rewrite spec_end_code.
  - unfold deleteEvent. destruct (events w !! k); left; simpl; rewrite Hj; simpl;
      (split_and!; [done | repeat constructor; right; done | compute; lia]).
  - unfold dragEvent, updateEvent. destruct (events w !! k); left; simpl; rewrite Hj; simpl;
      (split_and!; [done | repeat constructor; right; done | compute; lia]).
  - destruct (events w !! k); left; simpl; rewrite Hj; simpl;
      (split_and!; [done | repeat constructor | compute; lia]).
  - unfold editSubmit. destruct (editDoc (ui w)) as [d |] eqn:He.
    + right. unfold afterUpdate. simpl. rewrite He.
      destruct (getEventById (events w) (Interaction.id d)); simpl; rewrite ?Hj; simpl;
        (split; [done | repeat constructor]).
    + left. simpl. rewrite Hj. split_and!; [done | constructor | compute; lia].
Qed.

(** C34: Refinement under failures: from a world with nothing pending,
    whatever calls of a gesture reject and in whatever order the others
    complete, the store is either unchanged or changed by exactly the
    operation the spec assigns to the gesture, never by anything else
    and never by half of it. *)
Theorem gesture_store_atomic (w w' : World St) g :
  jobs w = [] -> rtc (fail_step org_id) (handle user_id org_id w g) w' ->
  store w' = store w \/ store w' = astep (store w) (gesture_op user_id org_id w g).
Proof.
  intros Hj Hr. destruct (atomic_inv_rtc _ _ _ _ (atomic_inv_handle w g Hj) Hr) as [(Hs & _) | (Hs & _)];
    [by left | by right].
Qed.
End Atomicity.

(** The create of the loaded session with its call rejected. *)
Definition demo_created : World FireStore := handle "u1" "o1" loaded demo_create.
Definition demo_job : Job := hd LoadEventsJob (jobs demo_created).
Definition demo_rejected : World FireStore := reject_job (set_jobs demo_created []) demo_job.

Lemma demo_rejected_steps : rtc (fail_step "o1") demo_created demo_rejected.
Proof. apply rtc_once, (fail_reject "o1" demo_created [] demo_job []). vm_decide. Qed.

Lemma gesture_store_atomic_witness :
  jobs loaded = [] /\ rtc (fail_step "o1") (handle "u1" "o1" loaded demo_create) demo_rejected /\
  (store demo_rejected = store loaded \/
   store demo_rejected = astep (store loaded) (gesture_op "u1" "o1" loaded demo_create)).
Proof.
  exact (conj loaded_jobs (conj demo_rejected_steps
    (gesture_store_atomic "u1" "o1" loaded demo_rejected demo_create loaded_jobs demo_rejected_steps))).
Defined.
