(* ===== verification/Contacts.v ===== *)
(** * The contacts table controller

    [src/src/pages/contacts.js], [ContactsPage].  Its state is the React
    state [contactList] and the edit panel's [value] and disclosure; the grid's [onRowAdd] and [onRowDelete] callbacks
    are closures of the render that created them, so each reads the
    [contactList] of that render (its snapshot), and each defers its work by
    [setTimeout(..., 1000)]: the timers fire in the order they were set.
    The notification of each callback is shown when the callback is called,
    since [promise.then(toast({...}))] calls [toast] at once and hands its
    result to [then].  The contact store is an interface ([ContactStore]
    with [ContactStoreLaws]); [createNewContact]'s result is tested for
    truthiness as it is returned, which is a [Promise] (always truthy) when
    the store is asynchronous. *)

From S2P Require Import Prelude JsRuntime Store.

(** The value [createNewContact] returns: an id, a falsy value, or a
    pending [Promise]. *)
Inductive JsRet :=
  | RetId (i : string)
  | RetFalsy
  | RetPromise.

#[export] Instance truthy_JsRet : Truthy JsRet :=
  fun r => match r with RetId i => truthy i | RetFalsy => false | RetPromise => true end.

Class ContactStore (C : Type) := {
  createNewContact : C -> string -> string -> string -> string -> string -> string -> JsRet * C;
  getContactsByOrg : C -> string -> list Contact.t;
  deleteContact : C -> option string -> C
}.

(** A create whose result is truthy wrote the contact under a new id
    ([notes] is not passed); a create keeps the contacts already stored;
    deleting by an id removes that contact;
    deleting by [undefined] removes nothing and returns normally (the
    store's [delete(id) -> void] of the spec does not say; this is the
    assumption under which the theorems on deleting an added row hold);
    a listing holds each contact once, every listed contact has an id, and the id identifies it. *)
Class ContactStoreLaws (C : Type) `{ContactStore C} := {
  create_written c o n co e ph po r c' :
    createNewContact c o n co e ph po = (r, c') -> truthy r = true ->
    exists i, Contact.mk (Some i) o n co po e ph "" ∈ getContactsByOrg c' o;
  create_keeps c o n co e ph po r c' o' x :
    createNewContact c o n co e ph po = (r, c') ->
    x ∈ getContactsByOrg c o' -> x ∈ getContactsByOrg c' o';
  delete_undefined c : deleteContact c None = c;
  delete_elem c i o x :
    x ∈ getContactsByOrg (deleteContact c (Some i)) o <->
    x ∈ getContactsByOrg c o /\ Contact.id x <> Some i;
  by_org_NoDup c o : NoDup (getContactsByOrg c o);
  by_org_has_id c o x : x ∈ getContactsByOrg c o -> is_Some (Contact.id x);
  by_org_id_inj c o x y :
    x ∈ getContactsByOrg c o -> y ∈ getContactsByOrg c o -> Contact.id x = Contact.id y -> x = y
}.

(** A timer callback set by a grid callback, with the [contactList] of the
    render the callback belongs to. *)
Inductive Timer :=
  | AddTimer (snapshot : list Contact.t) (newData : Contact.t)
  | DeleteTimer (snapshot : list Contact.t) (oldData : Contact.t) (index : jsnum).

(** How the promise returned to the grid settles. *)
Inductive Outcome := Resolved | Rejected.

(** The edit panel of [ContactPopUp]: the row it shows ([value], the empty
    string [""] at first) and its disclosure. *)
Record Popup := mkPopup { value : option Contact.t; isOpen : bool }.

Section Controller.
Context {C : Type} `{!ContactStore C}.
(** The [org.id] prop. *)
Variable org_id : string.

Record CWorld := mkCWorld {
  cstore : C;
  contactList : list Contact.t;
  timers : list Timer;
  ctoasts : list string;
  outcomes : list Outcome;
  popup : Popup
}.

(** The mount effect: [setContactList(getContactsByOrg(org.id))]
    (lines 104-109). *)
Definition mountContacts (w : CWorld) : CWorld :=
  mkCWorld (cstore w) (getContactsByOrg (cstore w) org_id) (timers w) (ctoasts w) (outcomes w)
    (popup w).

(** [handlePopUp(rowData)] (lines 111-114), the edit button of a row:
    [setValue(rowData); onOpen()]. *)
Definition handlePopUp (w : CWorld) (rowData : Contact.t) : CWorld :=
  mkCWorld (cstore w) (contactList w) (timers w) (ctoasts w) (outcomes w)
    (mkPopup (Some rowData) true).

(** [onRowAdd(newData)] (lines 206-234): set the timer, show the
    notification.  [promise.then(toast(...))] calls [toast] at once and
    hands [then] its result, which is not a function: the derived promise
    settles exactly as [promise] does, so it needs no state of its own; a
    [Rejected] outcome of [promise] is also an unhandled rejection of the
    derived promise (the same holds for [onRowDelete]). *)
Definition onRowAdd (w : CWorld) (newData : Contact.t) : CWorld :=
  mkCWorld (cstore w) (contactList w) (timers w ++ [AddTimer (contactList w) newData])
    (ctoasts w ++ ["New Contact Added"%string]) (outcomes w) (popup w).

(** [onRowDelete(oldData)] (lines 235-255) on the row the grid rendered at
    [oldData.tableData.id = k]. *)
Definition onRowDelete (w : CWorld) (k : nat) : CWorld :=
  match contactList w !! k with
  | Some oldData =>
      mkCWorld (cstore w) (contactList w)
        (timers w ++ [DeleteTimer (contactList w) oldData (Some (Z.of_nat k))])
        (ctoasts w ++ ["Contact Successfully Deleted"%string]) (outcomes w) (popup w)
  | None => w
  end.

(** The callback of a timer (lines 208-223 and 237-244). *)
Definition run_timer (w : CWorld) (t : Timer) : CWorld :=
  match t with
  | AddTimer snapshot newData =>
      let '(contactID, c') :=
        createNewContact (cstore w) org_id (Contact.name newData) (Contact.company newData)
          (Contact.email newData) (Contact.phoneNumber newData) (Contact.position newData) in
      if truthy contactID
      then mkCWorld c' (snapshot ++ [newData]) (timers w) (ctoasts w) (outcomes w ++ [Resolved])
             (popup w)
      else mkCWorld c' (contactList w) (timers w) (ctoasts w) (outcomes w ++ [Rejected]) (popup w)
  | DeleteTimer snapshot oldData index =>
      let dataDelete := splice1 snapshot index in
      mkCWorld (deleteContact (cstore w) (Contact.id oldData)) dataDelete (timers w) (ctoasts w)
        (outcomes w ++ [Resolved]) (popup w)
  end.

(** Fire the earliest timer. *)
Definition fire (w : CWorld) : CWorld :=
  match timers w with
  | [] => w
  | t :: ts => run_timer (mkCWorld (cstore w) (contactList w) ts (ctoasts w) (outcomes w) (popup w)) t
  end.
End Controller.

Arguments CWorld C : clear implicits.

(** ** A finite-map contact store

    It answers a create with the new id ([Sync]), with a pending promise
    ([Async]), or fails with a falsy value and writes nothing
    ([Failing]). *)

Inductive CreateMode := Sync | Async | Failing.

Record ContactDB := {
  cdb_contacts : gmap string Contact.t;
  cdb_mode : CreateMode
}.

Definition cdb_list (m : gmap string Contact.t) : list Contact.t :=
  (fun '(i, x) => Contact.mk (Some i) (Contact.org x) (Contact.name x) (Contact.company x)
                    (Contact.position x) (Contact.email x) (Contact.phoneNumber x)
                    (Contact.notes x)) <$> map_to_list m.

#[export] Instance ContactDB_store : ContactStore ContactDB := {
  createNewContact db o n co e ph po :=
    let i := fresh (dom (cdb_contacts db)) in
    let db' := {| cdb_contacts := <[i := Contact.mk (Some i) o n co po e ph ""]> (cdb_contacts db);
                  cdb_mode := cdb_mode db |} in
    match cdb_mode db with
    | Sync => (RetId i, db')
    | Async => (RetPromise, db')
    | Failing => (RetFalsy, db)
    end;
  getContactsByOrg db o :=
    List.filter (fun x => String.eqb (Contact.org x) o) (cdb_list (cdb_contacts db));
  deleteContact db i :=
    match i with
    | Some i => {| cdb_contacts := delete i (cdb_contacts db); cdb_mode := cdb_mode db |}
    | None => db
    end
}.

Lemma cdb_list_elem m x :
  x ∈ cdb_list m <-> exists i y, m !! i = Some y /\ Contact.id x = Some i /\
    x = Contact.mk (Some i) (Contact.org y) (Contact.name y) (Contact.company y)
          (Contact.position y) (Contact.email y) (Contact.phoneNumber y) (Contact.notes y).
Proof.
  unfold cdb_list. rewrite list_elem_of_fmap. split.
  - intros ([i y] & -> & Hin%elem_of_map_to_list). by exists i, y.
  - intros (i & y & Hy & _ & ->). exists (i, y). split; [done |]. by apply elem_of_map_to_list.
Qed.

Lemma cdb_list_ids m : Contact.id <$> cdb_list m = Some <$> (map_to_list m).*1.
Proof.
  unfold cdb_list. rewrite <- !list_fmap_compose. apply list_fmap_ext. by intros _ [i x] _.
Qed.

Lemma cdb_list_NoDup m : NoDup (cdb_list m).
Proof.
  apply (NoDup_fmap_1 Contact.id). rewrite cdb_list_ids.
  apply (NoDup_fmap_2 _), NoDup_fst_map_to_list.
Qed.

#[export] Instance ContactDB_laws : ContactStoreLaws ContactDB.
Proof.
  split.
  - intros db o n co e ph po r c' Hc Hr. exists (fresh (dom (cdb_contacts db))).
    simpl in Hc. destruct (cdb_mode db); injection Hc as <- <-; [| | done];
      simpl; rewrite elem_of_filter_bool, cdb_list_elem, String.eqb_refl; (split; [| done]);
      eexists _, _; by rewrite lookup_insert_eq.
  - intros db o n co e ph po r c' o' x Hc Hx. simpl in Hc.
    destruct (cdb_mode db); injection Hc as <- <-; [| | done].
    all: revert Hx; simpl; rewrite !elem_of_filter_bool, !cdb_list_elem.
    all: intros [(i & y & Hy & Hid & ->) Ho]; split; [| done]; exists i, y; split_and!; [| done | done].
    all: rewrite lookup_insert_ne; [exact Hy |].
    all: intros Heq; apply (is_fresh (dom (cdb_contacts db))); rewrite Heq; by apply elem_of_dom_2 with y.
  - done.
  - intros db i o x. simpl. rewrite !elem_of_filter_bool, !cdb_list_elem. split.
    + intros [(j & y & Hy & Hid & ->) Ho]. rewrite lookup_delete_Some in Hy.
      destruct Hy as [Hij Hy]. split; [split; [by exists j, y | done] |]. simpl. congruence.
    + intros [[(j & y & Hy & Hid & ->) Ho] Hne]. split; [| done].
      exists j, y. simpl in *. rewrite lookup_delete_ne by congruence. done.
  - intros db o. apply NoDup_filter_bool, cdb_list_NoDup.
  - intros db o x. simpl. rewrite elem_of_filter_bool, cdb_list_elem.
    intros [(i & y & _ & -> & _) _]. by eexists.
  - intros db o x y. simpl. rewrite !elem_of_filter_bool, !cdb_list_elem.
    intros [(i & x' & Hx & Hidx & ->) _] [(j & y' & Hy & Hidy & ->) _] Heq.
    simpl in Heq. injection Heq as <-. rewrite Hx in Hy. by injection Hy as <-.
Qed.
