(* ===== verification/ContactsGrid.v ===== *)
(** * The columns of the contacts grid

    [ContactsPage] configures its [MaterialTable] with nine columns
    (lines 149-202): an avatar, the five contact fields, a hidden [id], a
    hidden [notes] and the edit button.  The grid's add row offers an
    input for each column that has a [field] and is not hidden; the
    object [newData] it hands to [onRowAdd] holds the fields the user
    typed.  So a row added in the grid never carries an [id] (nor
    [notes]), whatever the user types: [deleteContact(oldData.id)] on it
    is [deleteContact(undefined)], which the store law makes a no-op. *)

From S2P Require Import Prelude JsRuntime Store Contacts.

Local Open Scope string_scope.

(** A column of the [columns] prop: its header, the contact field it
    shows, whether it is hidden, and whether it has its own [render]. *)
Record Column := mkColumn {
  col_title : option string;
  col_field : option string;
  col_hidden : bool;
  col_render : bool
}.

(** The [columns] prop (lines 149-202). *)
Definition columns : list Column := [
  mkColumn None None false true;
  mkColumn (Some "Contact Name") (Some "name") false false;
  mkColumn (Some "Company") (Some "company") false false;
  mkColumn (Some "Position") (Some "position") false false;
  mkColumn (Some "ID") (Some "id") true false;
  mkColumn (Some "Email") (Some "email") false false;
  mkColumn (Some "Phone Number") (Some "phoneNumber") false false;
  mkColumn (Some "Notes") (Some "notes") true false;
  mkColumn None None false true
].

(** The fields the add row offers an input for. *)
Definition input_fields (cols : list Column) : list string :=
  omap (fun c => if col_hidden c then None else col_field c) cols.

(** The object [newData] of [onRowAdd]: the typed values of the offered
    fields (a later value for a field overrides an earlier one). *)
Definition newData (cols : list Column) (typed : list (string * string)) : gmap string string :=
  list_to_map (List.filter (fun p => bool_decide (p.1 ∈ input_fields cols)) typed).

(** The contact [onRowAdd] reads from [newData] ([newData.name],
    [newData.company], ... at lines 211-215, and [oldData.id] when the
    row is deleted again); a field not typed is [undefined], read here as
    the empty string: both are falsy, and no theorem tells them apart, but
    the argument [createNewContact] receives for such a field is
    [undefined] in the code. *)
Definition row_contact (o : gmap string string) : Contact.t :=
  Contact.mk (o !! "id") "" (o !!! "name") (o !!! "company") (o !!! "position")
    (o !!! "email") (o !!! "phoneNumber") (o !!! "notes").

Lemma input_fields_columns :
  input_fields columns = ["name"; "company"; "position"; "email"; "phoneNumber"].
Proof. reflexivity. Qed.

(** A field the add row does not offer is never in [newData]. *)
Lemma newData_not_offered cols typed f :
  f ∉ input_fields cols -> newData cols typed !! f = None.
Proof.
  intros Hf. unfold newData. apply not_elem_of_list_to_map_1.
  rewrite list_elem_of_fmap. intros ([g v] & -> & Hin). simpl in Hf.
  apply elem_of_filter_bool in Hin as [_ Hb]. by apply bool_decide_eq_true in Hb.
Qed.

Lemma newData_dom cols typed f :
  is_Some (newData cols typed !! f) -> f ∈ input_fields cols.
Proof.
  intros Hs. destruct (decide (f ∈ input_fields cols)) as [| Hf]; [done |].
  rewrite newData_not_offered in Hs by done. by destruct Hs.
Qed.

(** C33: The grid's add row offers only name, company, position, email
    and phone number: whatever the user types, [newData] has no [id] and
    no [notes], so the row added to the table has no id, and deleting it
    again calls [deleteContact(undefined)], which leaves every store that
    meets the contract unchanged. *)
Theorem grid_rows_have_no_id {C} `{!ContactStore C} `{!ContactStoreLaws C} (c : C) typed :
  (forall f, is_Some (newData columns typed !! f) ->
     f ∈ ["name"; "company"; "position"; "email"; "phoneNumber"]) /\
  Contact.id (row_contact (newData columns typed)) = None /\
  Contact.notes (row_contact (newData columns typed)) = "" /\
  deleteContact c (Contact.id (row_contact (newData columns typed))) = c.
Proof.
  assert (Hid : newData columns typed !! "id" = None)
    by (apply newData_not_offered; rewrite input_fields_columns; set_solver).
  assert (Hno : newData columns typed !! "notes" = None)
    by (apply newData_not_offered; rewrite input_fields_columns; set_solver).
  split_and!.
  - intros f Hf. rewrite <- input_fields_columns. by apply (newData_dom _ typed).
  - done.
  - unfold row_contact. simpl. by rewrite lookup_total_alt, Hno.
  - simpl. rewrite Hid. apply delete_undefined.
Qed.

(** The user types a name and, into no offered input, an id: the row still
    has none, and deleting it leaves the store of Ann as it was. *)
Definition typed_row : list (string * string) := [("name", "Bob"); ("company", "Initech"); ("id", "c1")].

Definition ann_db : ContactDB :=
  {| cdb_contacts := <["c1" := Contact.mk (Some "c1") "o1" "Ann" "ACME" "CEO" "ann@acme.test" "555-0100" ""]> ∅;
     cdb_mode := Sync |}.

Lemma grid_rows_have_no_id_witness :
  (forall f, is_Some (newData columns typed_row !! f) ->
     f ∈ ["name"; "company"; "position"; "email"; "phoneNumber"]) /\
  Contact.id (row_contact (newData columns typed_row)) = None /\
  Contact.notes (row_contact (newData columns typed_row)) = "" /\
  deleteContact ann_db (Contact.id (row_contact (newData columns typed_row))) = ann_db /\
  Contact.name (row_contact (newData columns typed_row)) = "Bob".
Proof.
  destruct (grid_rows_have_no_id ann_db typed_row) as (H1 & H2 & H3 & H4).
  split_and!; [exact H1 | exact H2 | exact H3 | exact H4 | vm_decide].
Defined.
