(* ===== verification/ContactsProofs.v ===== *)
(** * Theorems on the contacts table controller

    What a row add or a row delete does to the local list, the store, the
    notifications and the promise handed back to the grid, with every timer
    fired; the invariant that, after the mount, completed row deletes keep
    the table a mirror of the store ([mirrors]); the findings that the
    success notification does not depend on the outcome, that a row added
    in the session cannot be deleted from the store, and that two
    callbacks of one render overwrite each other's update; and their
    witnesses on [ContactDB]. *)

From S2P Require Import Prelude JsRuntime Store Contacts.

Section Theorems.
Context {C : Type} `{!ContactStore C} `{!ContactStoreLaws C}.
Variable org_id : string.

Definition create_of (c : C) (d : Contact.t) : JsRet * C :=
  createNewContact c org_id (Contact.name d) (Contact.company d) (Contact.email d)
    (Contact.phoneNumber d) (Contact.position d).

(** The contact the store writes for a submitted row. *)
Definition stored_row (i : string) (d : Contact.t) : Contact.t :=
  Contact.mk (Some i) org_id (Contact.name d) (Contact.company d) (Contact.position d)
    (Contact.email d) (Contact.phoneNumber d) "".

Lemma fire_add (w : CWorld C) d r c' :
  timers w = [] -> create_of (cstore w) d = (r, c') ->
  let w' := fire org_id (onRowAdd w d) in
  cstore w' = c' /\ timers w' = [] /\ ctoasts w' = ctoasts w ++ ["New Contact Added"%string] /\
  if truthy r
  then contactList w' = contactList w ++ [d] /\ outcomes w' = outcomes w ++ [Resolved]
  else contactList w' = contactList w /\ outcomes w' = outcomes w ++ [Rejected].
Proof.
  intros Hj Hc. unfold fire, onRowAdd. simpl. rewrite Hj. simpl.
  unfold create_of in Hc. rewrite Hc. by destruct (truthy r).
Qed.

(** C19: A row add whose create returns a truthy id appends exactly the
    submitted row to the local list, resolves the grid's promise, and the
    store holds the new contact. *)
Theorem onRowAdd_resolved (w : CWorld C) d r c' :
  timers w = [] -> create_of (cstore w) d = (r, c') -> truthy r = true ->
  let w' := fire org_id (onRowAdd w d) in
  contactList w' = contactList w ++ [d] /\
  length (contactList w') = S (length (contactList w)) /\
  outcomes w' = outcomes w ++ [Resolved] /\
  exists i, stored_row i d ∈ getContactsByOrg (cstore w') org_id.
Proof.
  intros Hj Hc Hr. destruct (fire_add w d r c' Hj Hc) as (Hs & _ & _ & Hb). rewrite Hr in Hb.
  destruct Hb as [Hl Ho]. split_and!; [done | rewrite Hl, length_app; simpl; lia | done |].
  rewrite Hs. exact (create_written _ _ _ _ _ _ _ _ _ Hc Hr).
Qed.

(** C20: A row add whose create returns a falsy value leaves the local
    list as it was and rejects the grid's promise, but the success
    notification "New Contact Added" has been shown all the same. *)
Theorem onRowAdd_rejected_notifies (w : CWorld C) d r c' :
  timers w = [] -> create_of (cstore w) d = (r, c') -> truthy r = false ->
  let w' := fire org_id (onRowAdd w d) in
  contactList w' = contactList w /\ outcomes w' = outcomes w ++ [Rejected] /\
  "New Contact Added"%string ∈ ctoasts w'.
Proof.
  intros Hj Hc Hr. destruct (fire_add w d r c' Hj Hc) as (_ & _ & Ht & Hb). rewrite Hr in Hb.
  destruct Hb as [Hl Ho]. split_and!; [done | done |]. rewrite Ht. set_solver.
Qed.

Lemma fire_delete (w : CWorld C) k old :
  timers w = [] -> contactList w !! k = Some old ->
  let w' := fire org_id (onRowDelete w k) in
  contactList w' = delete k (contactList w) /\
  cstore w' = deleteContact (cstore w) (Contact.id old) /\ outcomes w' = outcomes w ++ [Resolved] /\
  timers w' = [].
Proof.
  intros Hj Hk. unfold fire, onRowDelete. rewrite Hk. cbn [timers]. rewrite Hj. cbn.
  split_and!; [| done | done | done]. unfold splice1. cbn [default]. unfold id.
  pose proof (lookup_lt_Some _ _ _ Hk).
  rewrite (proj2 (Z.ltb_ge _ _)), Z.min_l by lia. by rewrite Nat2Z.id.
Qed.

(** C21: A row delete removes the row the grid rendered at that index
    from the local list and deletes the contact with the row's id. *)
Theorem onRowDelete_removes (w : CWorld C) k old :
  timers w = [] -> contactList w !! k = Some old ->
  let w' := fire org_id (onRowDelete w k) in
  contactList w' = delete k (contactList w) /\
  length (contactList w') = pred (length (contactList w)) /\
  cstore w' = deleteContact (cstore w) (Contact.id old) /\ outcomes w' = outcomes w ++ [Resolved].
Proof.
  intros Hj Hk. destruct (fire_delete w k old Hj Hk) as (Hl & Hs & Ho & _).
  split_and!; [done | | done | done]. rewrite Hl, length_delete by eauto using lookup_lt_Some.
  pose proof (lookup_lt_Some _ _ _ Hk). lia.
Qed.

(** C23: A row added in the session has no id, so deleting it again
    removes it from the table but never from the store: the contact comes
    back at the next load. *)
Theorem add_then_delete_keeps_remote (w : CWorld C) d r c' :
  timers w = [] -> Contact.id d = None -> create_of (cstore w) d = (r, c') -> truthy r = true ->
  let w1 := fire org_id (onRowAdd w d) in
  let w2 := fire org_id (onRowDelete w1 (length (contactList w))) in
  contactList w2 = contactList w /\
  exists i, stored_row i d ∈ getContactsByOrg (cstore w2) org_id.
Proof.
  intros Hj Hid Hc Hr. cbv zeta.
  destruct (fire_add w d r c' Hj Hc) as (Hs & Hj1 & _ & Hb). rewrite Hr in Hb.
  destruct Hb as [Hl _].
  assert (Hk : contactList (fire org_id (onRowAdd w d)) !! length (contactList w) = Some d).
  { rewrite Hl, lookup_app_r, Nat.sub_diag by lia. done. }
  destruct (fire_delete _ _ _ Hj1 Hk) as (Hl2 & Hs2 & _ & _). split.
  - rewrite Hl2, Hl. rewrite delete_middle. by rewrite app_nil_r.
  - rewrite Hs2, Hid, delete_undefined, Hs. exact (create_written _ _ _ _ _ _ _ _ _ Hc Hr).
Qed.

(** C24: Two row adds set before the first timer fires belong to the same
    render: the second callback appends to the list of that render, so
    the first row is lost from the table although both are stored. *)
Theorem overlapping_adds_lose_row (w : CWorld C) d1 d2 r1 c1 :
  timers w = [] -> create_of (cstore w) d1 = (r1, c1) -> truthy r1 = true ->
  truthy (create_of c1 d2).1 = true ->
  let w' := fire org_id (fire org_id (onRowAdd (onRowAdd w d1) d2)) in
  contactList w' = contactList w ++ [d2].
Proof.
  intros Hj Hc1 H1 H2. unfold onRowAdd, fire. simpl. rewrite Hj. simpl.
  unfold create_of in Hc1, H2. rewrite Hc1. simpl. rewrite H1. simpl.
  destruct (createNewContact c1 _ _ _ _ _ _) as [r2 c2]. simpl in H2. by rewrite H2.
Qed.
(** The table shows the organisation's contacts in the store, up to
    order. *)
Definition mirrors (w : CWorld C) : Prop := contactList w ≡ₚ getContactsByOrg (cstore w) org_id.

(** Row deletes, each completed before the next gesture. *)
Fixpoint delete_rows (w : CWorld C) (ks : list nat) : CWorld C :=
  match ks with
  | [] => w
  | k :: ks' => delete_rows (fire org_id (onRowDelete w k)) ks'
  end.

(** A completed row delete keeps the table a mirror of the store: the grid
    index and the row's id name the same contact. *)
Lemma delete_keeps_mirror (w : CWorld C) k :
  timers w = [] -> mirrors w ->
  mirrors (fire org_id (onRowDelete w k)) /\ timers (fire org_id (onRowDelete w k)) = [].
Proof.
  intros Hj Hm. unfold mirrors in Hm. destruct (contactList w !! k) as [old |] eqn:Hk.
  2: { unfold onRowDelete, fire, mirrors. by rewrite Hk, Hj. }
  destruct (fire_delete w k old Hj Hk) as (Hl & Hs & _ & Hj').
  assert (Hin : old ∈ getContactsByOrg (cstore w) org_id)
    by (rewrite <- Hm; by eapply list_elem_of_lookup_2).
  destruct (by_org_has_id _ _ _ Hin) as [i Hi].
  split; [| done]. unfold mirrors. rewrite Hl, Hs, Hi.
  pose proof (delete_Permutation _ _ _ Hk) as Hperm.
  set (r := delete k (contactList w)) in *.
  assert (Hnd : NoDup (old :: r))
    by (rewrite <- Hperm, Hm; apply by_org_NoDup).
  apply NoDup_cons in Hnd as [Hold Hnd].
  apply perm_of_same_elems; [done | apply by_org_NoDup |].
  intros x. rewrite delete_elem, <- Hm, Hperm, elem_of_cons. split.
  - intros Hx. split; [by right |]. intros Hxi. apply Hold.
    assert (x = old) as <-; [| done].
    apply (by_org_id_inj (cstore w) org_id); [| done | congruence].
    rewrite <- Hm, Hperm. set_solver.
  - intros [[-> | Hx] Hne]; [congruence | done].
Qed.

(** C22: After the mount effect, any sequence of row deletes, each
    completed before the next, leaves the table showing exactly the
    organisation's contacts in the store (up to order): for rows loaded
    from the store, the grid index and the id stay aligned. *)
Theorem deletes_keep_mirror (w : CWorld C) ks :
  timers w = [] -> mirrors (delete_rows (mountContacts org_id w) ks).
Proof.
  intros Hj. assert (H : mirrors (mountContacts org_id w) /\ timers (mountContacts org_id w) = [])
    by (split; [unfold mirrors; reflexivity | exact Hj]).
  revert H. generalize (mountContacts org_id w). clear w Hj.
  induction ks as [| k ks IH]; intros w [Hm Hj]; simpl; [done |].
  apply IH, delete_keeps_mirror; done.
Qed.

End Theorems.

(** C25: With a store whose [createNewContact] is asynchronous, the
    [if (contactID)] test sees a [Promise]: no row add is ever rejected. *)
Theorem async_store_never_rejects org_id (w : CWorld ContactDB) d :
  timers w = [] -> cdb_mode (cstore w) = Async ->
  outcomes (fire org_id (onRowAdd w d)) = outcomes w ++ [Resolved].
Proof.
  intros Hj Ha.
  destruct (create_of org_id (cstore w) d) as [r c'] eqn:Hc.
  destruct (fire_add org_id w d r c' Hj Hc) as (_ & _ & _ & Hb).
  assert (r = RetPromise) as ->.
  { unfold create_of in Hc. simpl in Hc. rewrite Ha in Hc. by injection Hc as <-. }
  by destruct Hb.
Qed.

(** ** A concrete table session *)

Definition ann_row : Contact.t :=
  Contact.mk (Some "c1") "o1" "Ann" "ACME" "CEO" "ann@acme.test" "555-0100" "".

(** A row typed into the grid: the hidden id column is left empty. *)
Definition bob_row : Contact.t :=
  Contact.mk None "o1" "Bob" "Initech" "CTO" "bob@initech.test" "555-0199" "".

Definition table0 (mode : CreateMode) : CWorld ContactDB :=
  mkCWorld {| cdb_contacts := <["c1" := ann_row]> ∅; cdb_mode := mode |} [] [] [] []
    (mkPopup None false).

Definition table (mode : CreateMode) : CWorld ContactDB := mountContacts "o1" (table0 mode).

Lemma table_timers mode : timers (table mode) = [].
Proof. reflexivity. Defined.

Lemma onRowAdd_resolved_witness :
  timers (table Sync) = [] /\ truthy (create_of "o1" (cstore (table Sync)) bob_row).1 = true /\
  contactList (fire "o1" (onRowAdd (table Sync) bob_row)) = contactList (table Sync) ++ [bob_row].
Proof.
  assert (Hr : truthy (create_of "o1" (cstore (table Sync)) bob_row).1 = true)
    by (vm_compute; reflexivity).
  exact (conj (table_timers Sync) (conj Hr (proj1 (onRowAdd_resolved "o1" (table Sync) bob_row _ _
    (table_timers Sync) (surjective_pairing _) Hr)))).
Defined.

Lemma onRowAdd_rejected_notifies_witness :
  timers (table Failing) = [] /\
  truthy (create_of "o1" (cstore (table Failing)) bob_row).1 = false /\
  "New Contact Added"%string ∈ ctoasts (fire "o1" (onRowAdd (table Failing) bob_row)).
Proof.
  assert (Hr : truthy (create_of "o1" (cstore (table Failing)) bob_row).1 = false)
    by (vm_compute; reflexivity).
  exact (conj (table_timers Failing) (conj Hr (proj2 (proj2 (onRowAdd_rejected_notifies "o1"
    (table Failing) bob_row _ _ (table_timers Failing) (surjective_pairing _) Hr))))).
Defined.

Lemma onRowDelete_removes_witness :
  timers (table Sync) = [] /\ contactList (table Sync) !! 0 = Some ann_row /\
  contactList (fire "o1" (onRowDelete (table Sync) 0)) = [].
Proof.
  assert (Hk : contactList (table Sync) !! 0 = Some ann_row) by (vm_compute; reflexivity).
  exact (conj (table_timers Sync) (conj Hk
    (proj1 (onRowDelete_removes "o1" (table Sync) 0 ann_row (table_timers Sync) Hk)))).
Defined.

Lemma add_then_delete_keeps_remote_witness :
  timers (table Sync) = [] /\ Contact.id bob_row = None /\
  truthy (create_of "o1" (cstore (table Sync)) bob_row).1 = true /\
  contactList (fire "o1" (onRowDelete (fire "o1" (onRowAdd (table Sync) bob_row)) 1))
  = contactList (table Sync).
Proof.
  assert (Hr : truthy (create_of "o1" (cstore (table Sync)) bob_row).1 = true)
    by (vm_compute; reflexivity).
  exact (conj (table_timers Sync) (conj eq_refl (conj Hr (proj1 (add_then_delete_keeps_remote
    "o1" (table Sync) bob_row _ _ (table_timers Sync) eq_refl (surjective_pairing _) Hr))))).
Defined.

Lemma overlapping_adds_lose_row_witness :
  timers (table Sync) = [] /\
  truthy (create_of "o1" (cstore (table Sync)) bob_row).1 = true /\
  truthy (create_of "o1" (create_of "o1" (cstore (table Sync)) bob_row).2 ann_row).1 = true /\
  contactList (fire "o1" (fire "o1" (onRowAdd (onRowAdd (table Sync) bob_row) ann_row)))
  = contactList (table Sync) ++ [ann_row].
Proof.
  assert (H1 : truthy (create_of "o1" (cstore (table Sync)) bob_row).1 = true)
    by (vm_compute; reflexivity).
  assert (H2 : truthy (create_of "o1" (create_of "o1" (cstore (table Sync)) bob_row).2 ann_row).1
               = true) by (vm_compute; reflexivity).
  exact (conj (table_timers Sync) (conj H1 (conj H2 (overlapping_adds_lose_row "o1" (table Sync)
    bob_row ann_row _ _ (table_timers Sync) (surjective_pairing _) H1 H2)))).
Defined.

Lemma async_store_never_rejects_witness :
  timers (table Async) = [] /\ cdb_mode (cstore (table Async)) = Async /\
  outcomes (fire "o1" (onRowAdd (table Async) bob_row)) = [Resolved].
Proof.
  exact (conj (table_timers Async) (conj eq_refl
    (async_store_never_rejects "o1" (table Async) bob_row (table_timers Async) eq_refl))).
Defined.

Lemma deletes_keep_mirror_witness :
  timers (table0 Sync) = [] /\ mirrors "o1" (delete_rows "o1" (table Sync) [3; 0]).
Proof.
  assert (Hj : timers (table0 Sync) = []) by reflexivity.
  exact (conj Hj (deletes_keep_mirror "o1" (table0 Sync) [3; 0] Hj)).
Defined.
