(* ===== verification/ContactsSession.v ===== *)
(** * The contacts page with its load in flight

    The mount effect of [ContactsPage] does not wait for the listing:
    [Promise.resolve(getContactsByOrg(org.id)).then(val => setContactList(val))]
    calls the store at once and sets the list when its answer arrives,
    while the page is already rendered with [contactList = []] and the
    grid's callbacks are live.  A [Session] is the page's world with a
    flag saying whether the listing is still pending; [sstep] lets the
    answer arrive ([mountContacts]), the user add, delete or open a row,
    or the earliest timer fire, in any order.  A row add issued before the
    listing arrives closes over the empty list of the first render, so
    its timer replaces the loaded contacts by the one row.  [OfflineDB]
    is a store whose writes reject: the timers neither await
    [createNewContact] nor [deleteContact], so the page reports success
    and changes its list while the store keeps what it had. *)

From S2P Require Import Prelude JsRuntime Store Contacts ContactsProofs.

Section Session.
Context {C : Type} `{!ContactStore C} `{!ContactStoreLaws C}.
Variable org_id : string.

Record Session := mkSession { sworld : CWorld C; loading : bool }.

(** The page as first rendered: the listing requested, not yet set. *)
Definition openPage (w : CWorld C) : Session := mkSession w true.

Inductive sstep : Session -> Session -> Prop :=
  | sstep_load w : sstep (mkSession w true) (mkSession (mountContacts org_id w) false)
  | sstep_add s d : sstep s (mkSession (onRowAdd (sworld s) d) (loading s))
  | sstep_delete s k : sstep s (mkSession (onRowDelete (sworld s) k) (loading s))
  | sstep_popup s r : sstep s (mkSession (handlePopUp (sworld s) r) (loading s))
  | sstep_fire s : timers (sworld s) <> [] -> sstep s (mkSession (fire org_id (sworld s)) (loading s)).

(** An add, then the listing, then the add's timer. *)
Definition early_add (w : CWorld C) (d : Contact.t) : CWorld C :=
  fire org_id (mountContacts org_id (onRowAdd w d)).

Lemma early_add_steps (w : CWorld C) d :
  rtc sstep (openPage w) (mkSession (early_add w d) false).
Proof.
  apply (rtc_l _ _ (mkSession (onRowAdd w d) true)); [apply (sstep_add (openPage w)) |].
  apply (rtc_l _ _ (mkSession (mountContacts org_id (onRowAdd w d)) false)); [apply sstep_load |].
  apply rtc_once, (sstep_fire (mkSession (mountContacts org_id (onRowAdd w d)) false)).
  simpl. by destruct (timers w).
Qed.

(** C28: A row added before the listing has arrived wipes the loaded
    contacts: the page opens with the empty list, the user adds a row, the
    listing arrives and is shown, then the add's timer fires with a
    truthy id; the list is then the added row alone, whatever the listing
    held, though the store still lists every contact it listed before. *)
Theorem early_add_drops_loaded (w : CWorld C) d r c' :
  contactList w = [] -> timers w = [] -> create_of org_id (cstore w) d = (r, c') -> truthy r = true ->
  rtc sstep (openPage w) (mkSession (early_add w d) false) /\
  contactList (sworld (mkSession (mountContacts org_id (onRowAdd w d)) false))
    = getContactsByOrg (cstore w) org_id /\
  cstore (early_add w d) = c' /\ contactList (early_add w d) = [d] /\
  (forall x, x ∈ getContactsByOrg (cstore w) org_id ->
     x ∈ getContactsByOrg (cstore (early_add w d)) org_id).
Proof.
  intros Hl Hj Hc Hr.
  assert (Hs : cstore (early_add w d) = c').
  { unfold early_add, fire, mountContacts, onRowAdd; simpl; rewrite Hj; simpl.
    unfold create_of in Hc. by rewrite Hc, Hr. }
  split_and!; [apply early_add_steps | done | done | |].
  - unfold early_add, fire, mountContacts, onRowAdd; simpl; rewrite Hj; simpl;
      unfold create_of in Hc; rewrite Hc, Hr; simpl; by rewrite Hl.
  - intros x Hx. rewrite Hs. unfold create_of in Hc. by eapply create_keeps.
Qed.
End Session.

(** The page opened on the store of Ann; Bob is added before the listing
    arrives: Ann is listed by the store but no longer in the table. *)
Lemma early_add_drops_loaded_witness :
  contactList (table0 Sync) = [] /\ timers (table0 Sync) = [] /\
  truthy (create_of "o1" (cstore (table0 Sync)) bob_row).1 = true /\
  contactList (early_add "o1" (table0 Sync) bob_row) = [bob_row] /\
  ann_row ∈ getContactsByOrg (cstore (early_add "o1" (table0 Sync) bob_row)) "o1".
Proof.
  assert (Hr : truthy (create_of "o1" (cstore (table0 Sync)) bob_row).1 = true) by vm_decide.
  destruct (early_add_drops_loaded "o1" (table0 Sync) bob_row _ _ eq_refl eq_refl
    (surjective_pairing _) Hr) as (_ & _ & _ & Hl & _).
  split_and!; [done | done | exact Hr | exact Hl | vm_decide].
Defined.

(** ** A store whose writes reject

    [createNewContact] returns the store's pending [Promise], which will
    reject and which nobody awaits; [deleteContact]'s rejected promise is
    dropped the same way.  Reads answer from the contacts it holds. *)
Record OfflineDB := { off_db : ContactDB }.

#[export] Instance OfflineDB_store : ContactStore OfflineDB := {
  createNewContact c _ _ _ _ _ _ := (RetPromise, c);
  getContactsByOrg c o := getContactsByOrg (off_db c) o;
  deleteContact c _ := c
}.

(** A list that gained or lost a row is no longer a permutation. *)
Lemma mirrors_length {C} `{!ContactStore C} org_id (w w' : CWorld C) :
  mirrors org_id w -> cstore w' = cstore w -> length (contactList w') <> length (contactList w) ->
  ~ mirrors org_id w'.
Proof.
  unfold mirrors. intros Hm Hs Hl Hm'. apply Hl. rewrite Hs in Hm'.
  by rewrite (Permutation_length Hm'), (Permutation_length Hm).
Qed.

(** C32: With a store whose writes reject, the grid still reports every
    add and delete as done: from a table that mirrors the store with no
    timer pending, a row add appends the row and resolves, a row delete
    removes the row and resolves, the store is unchanged, and the table no
    longer mirrors it. *)
Theorem offline_diverges org_id (w : CWorld OfflineDB) d k old :
  timers w = [] -> mirrors org_id w ->
  (let w' := fire org_id (onRowAdd w d) in
   contactList w' = contactList w ++ [d] /\ cstore w' = cstore w /\
   outcomes w' = outcomes w ++ [Resolved] /\ ~ mirrors org_id w') /\
  (contactList w !! k = Some old ->
   let w' := fire org_id (onRowDelete w k) in
   contactList w' = delete k (contactList w) /\ cstore w' = cstore w /\
   outcomes w' = outcomes w ++ [Resolved] /\ ~ mirrors org_id w').
Proof.
  intros Hj Hm. split.
  - assert (Hc : create_of org_id (cstore w) d = (RetPromise, cstore w)) by reflexivity.
    destruct (fire_add org_id w d RetPromise (cstore w) Hj Hc) as (Hs & _ & _ & Hl & Ho).
    split_and!; [done | done | done |]. apply (mirrors_length org_id w); [done | done |].
    rewrite Hl, length_app. simpl. lia.
  - intros Hk. destruct (fire_delete org_id w k old Hj Hk) as (Hl & Hs & Ho & _).
    split_and!; [done | done | done |]. apply (mirrors_length org_id w); [done | done |].
    rewrite Hl, length_delete by done. pose proof (lookup_lt_Some _ _ _ Hk). lia.
Qed.

Definition offline_table : CWorld OfflineDB :=
  mountContacts "o1" (mkCWorld {| off_db := cstore (table0 Sync) |} [] [] [] [] (mkPopup None false)).

Lemma offline_diverges_witness :
  timers offline_table = [] /\ mirrors "o1" offline_table /\
  contactList offline_table !! 0%nat = Some ann_row /\
  (let w' := fire "o1" (onRowAdd offline_table bob_row) in
   contactList w' = contactList offline_table ++ [bob_row] /\ cstore w' = cstore offline_table /\
   outcomes w' = outcomes offline_table ++ [Resolved] /\ ~ mirrors "o1" w') /\
  (let w' := fire "o1" (onRowDelete offline_table 0) in
   contactList w' = delete 0 (contactList offline_table) /\ cstore w' = cstore offline_table /\
   outcomes w' = outcomes offline_table ++ [Resolved] /\ ~ mirrors "o1" w').
Proof.
  assert (Hj : timers offline_table = []) by reflexivity.
  assert (Hm : mirrors "o1" offline_table) by (unfold mirrors; reflexivity).
  assert (Hk : contactList offline_table !! 0%nat = Some ann_row) by vm_decide.
  destruct (offline_diverges "o1" offline_table bob_row 0 ann_row Hj Hm) as [Ha Hd].
  exact (conj Hj (conj Hm (conj Hk (conj Ha (Hd Hk))))).
Defined.
